(** * Blockchain-backed storage driver: ledger, chunk codec and FUSE read/write

    A shallow embedding of [myfuse/blockchain.py], [myfuse/ipfs_client.py],
    [myfuse/config.py], the filesystem operations of [myfuse/main.py] and
    the checks of [myfuse/integrity_checker.py], together with the
    properties of the hash chain, the chunking loop, the read and write
    paths and the attribute and directory operations.

    Conventions.
    - Python [int] is [Z]; [str] is [string] (a [str] is identified with its
      UTF-8 encoding, which is what [.encode()] produces); [bytes] is
      [list byte].
    - [hashlib.sha256] is the FIPS 180-4 function, written out below on
      32-bit words held in [Z].
    - A Python exception is a value of [exn]; a call that may raise returns
      a [result].
    - The logger ([fs_logger]) only writes log lines; it is left out, and
      so is the chain file ([save_blockchain], [load_blockchain]): a chain
      is the list of blocks held in memory. *)

From Stdlib Require Import ZArith List Ascii String DecimalString Lia.
From Stdlib.Strings Require Import Byte.
From stdpp Require Import base option list strings gmap.
Import ListNotations.

Local Open Scope Z_scope.

(** ** SHA-256 (hashlib.sha256), FIPS 180-4 *)

Module SHA256.

(** Reduction of an integer to a 32-bit word. *)
Definition wrap32 (x : Z) : Z := Z.land x 0xFFFFFFFF.

Definition add32 (x y : Z) : Z := wrap32 (x + y).

Definition rotr32 (n x : Z) : Z :=
  Z.lor (Z.shiftr x n) (wrap32 (Z.shiftl x (32 - n))).

Definition not32 (x : Z) : Z := Z.lxor x 0xFFFFFFFF.

Definition Ch (x y z : Z) : Z :=
  Z.lxor (Z.land x y) (Z.land (not32 x) z).

Definition Maj (x y z : Z) : Z :=
  Z.lxor (Z.lxor (Z.land x y) (Z.land x z)) (Z.land y z).

Definition big_sigma0 (x : Z) : Z :=
  Z.lxor (Z.lxor (rotr32 2 x) (rotr32 13 x)) (rotr32 22 x).

Definition big_sigma1 (x : Z) : Z :=
  Z.lxor (Z.lxor (rotr32 6 x) (rotr32 11 x)) (rotr32 25 x).

Definition small_sigma0 (x : Z) : Z :=
  Z.lxor (Z.lxor (rotr32 7 x) (rotr32 18 x)) (Z.shiftr x 3).

Definition small_sigma1 (x : Z) : Z :=
  Z.lxor (Z.lxor (rotr32 17 x) (rotr32 19 x)) (Z.shiftr x 10).

(** The sixty-four round constants. *)
Definition round_constants : list Z :=
  0x428a2f98 :: 0x71374491 :: 0xb5c0fbcf :: 0xe9b5dba5 ::
  0x3956c25b :: 0x59f111f1 :: 0x923f82a4 :: 0xab1c5ed5 ::
  0xd807aa98 :: 0x12835b01 :: 0x243185be :: 0x550c7dc3 ::
  0x72be5d74 :: 0x80deb1fe :: 0x9bdc06a7 :: 0xc19bf174 ::
  0xe49b69c1 :: 0xefbe4786 :: 0x0fc19dc6 :: 0x240ca1cc ::
  0x2de92c6f :: 0x4a7484aa :: 0x5cb0a9dc :: 0x76f988da ::
  0x983e5152 :: 0xa831c66d :: 0xb00327c8 :: 0xbf597fc7 ::
  0xc6e00bf3 :: 0xd5a79147 :: 0x06ca6351 :: 0x14292967 ::
  0x27b70a85 :: 0x2e1b2138 :: 0x4d2c6dfc :: 0x53380d13 ::
  0x650a7354 :: 0x766a0abb :: 0x81c2c92e :: 0x92722c85 ::
  0xa2bfe8a1 :: 0xa81a664b :: 0xc24b8b70 :: 0xc76c51a3 ::
  0xd192e819 :: 0xd6990624 :: 0xf40e3585 :: 0x106aa070 ::
  0x19a4c116 :: 0x1e376c08 :: 0x2748774c :: 0x34b0bcb5 ::
  0x391c0cb3 :: 0x4ed8aa4a :: 0x5b9cca4f :: 0x682e6ff3 ::
  0x748f82ee :: 0x78a5636f :: 0x84c87814 :: 0x8cc70208 ::
  0x90befffa :: 0xa4506ceb :: 0xbef9a3f7 :: 0xc67178f2 :: nil.

(** The eight working variables (and the chaining value). *)
Record regs : Type := Regs {
  ra : Z; rb : Z; rc : Z; rd : Z; re : Z; rf : Z; rg : Z; rh : Z
}.

Definition initial_regs : regs :=
  Regs 0x6a09e667 0xbb67ae85 0x3c6ef372 0xa54ff53a
       0x510e527f 0x9b05688c 0x1f83d9ab 0x5be0cd19.

Definition round (k w : Z) (s : regs) : regs :=
  let t1 := add32 (add32 (add32 (add32 (rh s) (big_sigma1 (re s)))
                                (Ch (re s) (rf s) (rg s))) k) w in
  let t2 := add32 (big_sigma0 (ra s)) (Maj (ra s) (rb s) (rc s)) in
  Regs (add32 t1 t2) (ra s) (rb s) (rc s)
       (add32 (rd s) t1) (re s) (rf s) (rg s).

(** The message schedule is kept as a sliding window of sixteen words:
    the head is W(t), the word pushed at the back is W(t+16). *)
Definition slide (win : list Z) : list Z :=
  let w_at i := nth i win 0 in
  let nxt := add32 (add32 (add32 (small_sigma1 (w_at 14%nat)) (w_at 9%nat))
                          (small_sigma0 (w_at 1%nat))) (w_at 0%nat) in
  tl win ++ [nxt].

Fixpoint rounds (ks : list Z) (win : list Z) (s : regs) : regs :=
  match ks with
  | [] => s
  | k :: ks' => rounds ks' (slide win) (round k (nth 0 win 0) s)
  end.

Definition compress (h : regs) (blk : list Z) : regs :=
  let s := rounds round_constants blk h in
  Regs (add32 (ra h) (ra s)) (add32 (rb h) (rb s))
       (add32 (rc h) (rc s)) (add32 (rd h) (rd s))
       (add32 (re h) (re s)) (add32 (rf h) (rf s))
       (add32 (rg h) (rg s)) (add32 (rh h) (rh s)).

(** Big-endian bytes of [x], [n] of them. *)
Fixpoint be_bytes (n : nat) (x : Z) : list Z :=
  match n with
  | O => []
  | S n' => Z.land (Z.shiftr x (8 * Z.of_nat n')) 0xFF :: be_bytes n' x
  end.

(** Padding: a 1 bit, zero bits up to 448 mod 512, the bit length on 64 bits. *)
Definition pad (msg : list Z) : list Z :=
  let len := Z.of_nat (length msg) in
  msg ++ [0x80] ++ repeat 0 (Z.to_nat ((55 - len) mod 64))
      ++ be_bytes 8 (8 * len).

(** Big-endian 32-bit words of a byte sequence. *)
Fixpoint words_of (bs : list Z) : list Z :=
  match bs with
  | b0 :: b1 :: b2 :: b3 :: rest =>
      (Z.lor (Z.shiftl b0 24)
         (Z.lor (Z.shiftl b1 16) (Z.lor (Z.shiftl b2 8) b3)))
      :: words_of rest
  | _ => []
  end.

(** Fold [compress] over the sixteen-word blocks; [n] bounds their number. *)
Fixpoint absorb (n : nat) (h : regs) (ws : list Z) : regs :=
  match n, ws with
  | S n', _ :: _ => absorb n' (compress h (firstn 16 ws)) (skipn 16 ws)
  | _, _ => h
  end.

Definition digest_words (msg : list byte) : list Z :=
  let ws := words_of (pad (map (fun b => Z.of_N (Byte.to_N b)) msg)) in
  let h := absorb (length ws) initial_regs ws in
  [ra h; rb h; rc h; rd h; re h; rf h; rg h; rh h].

Definition hex_digit (d : Z) : ascii :=
  match String.get (Z.to_nat d) "0123456789abcdef" with
  | Some c => c
  | None => "0"%char
  end.

(** Eight lowercase hex digits of a 32-bit word. *)
Definition hex_word (w : Z) : string :=
  string_of_list_ascii
    (map (fun i => hex_digit (Z.land (Z.shiftr w (4 * Z.of_nat i)) 0xF))
         [7; 6; 5; 4; 3; 2; 1; 0]%nat).

(** [hashlib.sha256(msg).hexdigest()] *)
Definition hexdigest (msg : list byte) : string :=
  String.concat "" (map hex_word (digest_words msg)).

End SHA256.


(** ** Python values used by the driver *)

Definition bytes : Type := list byte.

(** [str(n)] for an [int]: decimal digits, a leading [-] when negative. *)
Definition str_of_int (n : Z) : string := NilZero.string_of_int (Z.to_int n).

(** [s.encode()]. *)
Definition str_encode (s : string) : bytes := list_byte_of_string s.

(** [hashlib.sha256(b).hexdigest()]. *)
Definition sha256_hexdigest (b : bytes) : string := SHA256.hexdigest b.

(** [s.startswith(t)]. *)
Definition startswith (s t : string) : bool := String.prefix t s.

(** [s * n] for a [str] [s] and an [int] [n] (empty when [n <= 0]). *)
Definition str_repeat (s : string) (n : Z) : string :=
  String.concat "" (repeat s (Z.to_nat n)).

(** [path[1:]]. *)
Definition str_tail (s : string) : string :=
  match s with
  | EmptyString => EmptyString
  | String _ t => t
  end.

(** [len(l)]. *)
Definition len {A : Type} (l : list A) : Z := Z.of_nat (length l).

(** A slice bound as Python normalises it: a negative bound counts from
    the end, and the result is clamped to [0, len]. *)
Definition slice_bound (n i : Z) : Z :=
  if i <? 0 then Z.max 0 (n + i) else Z.min i n.

(** [l[i:j]]. *)
Definition slice {A : Type} (l : list A) (i j : Z) : list A :=
  let lo := slice_bound (len l) i in
  let hi := slice_bound (len l) j in
  firstn (Z.to_nat (hi - lo)) (skipn (Z.to_nat lo) l).

(** [range(start, stop, step)] for [step > 0]. A negative step gives the
    empty range here because every call has [start = 0 <= stop]; a zero
    step raises [ValueError] in Python and never occurs, the step being
    the constant [CHUNK_SIZE]. *)
Definition py_range (start stop step : Z) : list Z :=
  if (0 <? step) && (start <? stop)
  then map (fun k => start + Z.of_nat k * step)
           (seq 0 (Z.to_nat ((stop - start + step - 1) / step)))
  else [].

(** Exceptions. [FuseOSError] carries an [errno]. [AttributeError] is what
    [None.hash] raises. *)
Inductive errno : Type := EPERM | ENOENT | EIO | ENOSYS.

Inductive exn : Type :=
| FuseOSError (e : errno)
| AttributeError.

Inductive result (A : Type) : Type :=
| Ok (a : A)
| Raise (e : exn).

Arguments Ok {A} a.
Arguments Raise {A} e.

(** ** config.py *)

Definition CHUNK_SIZE : Z := 1024.
Definition DIFFICULTY : Z := 3.
Definition MAX_NONCE : Z := 1000000.

(** ** blockchain.py *)

Record Block : Type := mkBlock {
  index : Z;
  timestamp : string;
  filename : string;
  file_size : Z;
  chunk_hash : string;
  ipfs_hash : string;
  previous_hash : string;
  nonce : Z;
  hash : string
}.

(** [block.nonce = n] and [block.hash = h]. *)
Definition set_nonce (block : Block) (n : Z) : Block :=
  mkBlock (index block) (timestamp block) (filename block) (file_size block)
          (chunk_hash block) (ipfs_hash block) (previous_hash block)
          n (hash block).

Definition set_hash (block : Block) (h : string) : Block :=
  mkBlock (index block) (timestamp block) (filename block) (file_size block)
          (chunk_hash block) (ipfs_hash block) (previous_hash block)
          (nonce block) h.

Definition calculate_hash (block : Block) : string :=
  let block_string :=
    (str_of_int (index block) ++
     timestamp block ++
     filename block ++
     str_of_int (file_size block) ++
     chunk_hash block ++
     ipfs_hash block ++
     previous_hash block ++
     str_of_int (nonce block))%string in
  sha256_hexdigest (str_encode block_string).

(** The loop of [proof_of_work]: [todo] nonces are still to be tried,
    starting from [n]. The block is mutated at every iteration, so the
    block as the loop leaves it is returned with the nonce. *)
Fixpoint pow_loop (todo : nat) (n : Z) (block : Block) : Z * Block :=
  match todo with
  | O => (0, block)
  | S todo' =>
      let block := set_nonce block n in
      let hash_result := calculate_hash block in
      if startswith hash_result (str_repeat "0" DIFFICULTY)
      then (n, block)
      else pow_loop todo' (n + 1) block
  end.

Definition proof_of_work (block : Block) : Z * Block :=
  pow_loop (Z.to_nat MAX_NONCE) 0 block.

(** [self.chain[-1] if self.chain else None]. *)
Definition get_latest_block (chain : list Block) : option Block :=
  last chain.

(** [create_genesis_block]; [now] is [datetime.datetime.now().isoformat()]. *)
Definition create_genesis_block (chain : list Block) (now : string)
  : Block * list Block :=
  let genesis_block :=
    mkBlock 0 now "GENESIS" 0 (str_repeat "0" 64) "" (str_repeat "0" 64) 0 "" in
  let genesis_block := set_hash genesis_block (calculate_hash genesis_block) in
  (genesis_block, chain ++ [genesis_block]).

(** [Blockchain.__init__] once [load_blockchain] has produced [loaded]
    (the blocks of the file, or [[]] when it is missing or unreadable). *)
Definition init_chain (loaded : list Block) (now : string) : list Block :=
  match loaded with
  | [] => snd (create_genesis_block loaded now)
  | _ :: _ => loaded
  end.

(** [add_block]. On an empty chain [previous_block] is [None] and
    [previous_block.hash] raises. Saving the chain to its file does not
    change the chain in memory. *)
Definition add_block (chain : list Block) (now : string)
    (fname : string) (fsize : Z) (chash : string) (ihash : string)
  : result (Block * list Block) :=
  match get_latest_block chain with
  | None => Raise AttributeError
  | Some previous_block =>
      let new_block :=
        mkBlock (len chain) now fname fsize chash ihash
                (hash previous_block) 0 "" in
      let '(found, new_block) := proof_of_work new_block in
      let new_block := set_nonce new_block found in
      let new_block := set_hash new_block (calculate_hash new_block) in
      Ok (new_block, chain ++ [new_block])
  end.

Definition get_file_blocks (chain : list Block) (fname : string) : list Block :=
  List.filter (fun block => String.eqb (filename block) fname) chain.

(** One iteration of the loop of [validate_chain]; [None] means the loop
    goes on. An index outside the chain cannot occur, [i] ranging over
    [range(1, len(chain))]. *)
Definition validate_step (chain : list Block) (i : nat) : option bool :=
  match chain !! i, chain !! (i - 1)%nat with
  | Some current_block, Some previous_block =>
      if negb (String.eqb (hash current_block) (calculate_hash current_block))
      then Some false
      else if negb (String.eqb (previous_hash current_block)
                               (hash previous_block))
      then Some false
      else if negb (startswith (hash current_block)
                               (str_repeat "0" DIFFICULTY))
      then Some false
      else None
  | _, _ => Some false
  end.

Fixpoint validate_loop (chain : list Block) (idxs : list nat) : bool :=
  match idxs with
  | [] => true
  | i :: idxs' =>
      match validate_step chain i with
      | Some r => r
      | None => validate_loop chain idxs'
      end
  end.

Definition validate_chain (chain : list Block) : bool :=
  validate_loop chain (seq 1 (length chain - 1)).

Definition detect_tampering (chain : list Block) (fname : string) : list Z :=
  map index
      (List.filter
         (fun block => negb (String.eqb (hash block) (calculate_hash block)))
         (get_file_blocks chain fname)).

(** ** ipfs_client.py *)

(** The content store behind [IPFSClient]. [upload_chunk] returns the
    address ([None] on failure) and the store as the call leaves it;
    [download_chunk] returns the bytes held at an address ([None] on
    failure). *)
Class ContentStore (S : Type) : Type := {
  upload_chunk : S -> bytes -> option string * S;
  download_chunk : S -> string -> option bytes
}.

Definition verify_chunk (chunk_data : bytes) (expected_hash : string) : bool :=
  let actual_hash := sha256_hexdigest chunk_data in
  String.eqb actual_hash expected_hash.

(** ** main.py *)

(** [blocks.sort(key=lambda b: b.index)]: the sort is stable, so a block
    is inserted before the first block whose index is not below its own. *)
Fixpoint insert_by_index (block : Block) (sorted : list Block) : list Block :=
  match sorted with
  | [] => [block]
  | b :: rest =>
      if index block <=? index b
      then block :: b :: rest
      else b :: insert_by_index block rest
  end.

Fixpoint sort_by_index (blocks : list Block) : list Block :=
  match blocks with
  | [] => []
  | b :: rest => insert_by_index b (sort_by_index rest)
  end.

(** The chunking loop of [write]:
    [for i in range(0, len(data), chunk_size): chunks.append(data[i:i + chunk_size])]. *)
Definition split_chunks (data : bytes) (chunk_size : Z) : list bytes :=
  map (fun i => slice data i (i + chunk_size))
      (py_range 0 (len data) chunk_size).

(** What [read] does with the chunks: [file_data += chunk_data]. *)
Definition join_chunks (chunks : list bytes) : bytes := concat chunks.

(** The entry of [self.files] for one file. *)
Record file_info : Type := mkInfo {
  st_size : Z; st_ctime : Z; st_mtime : Z; st_atime : Z
}.

Section Filesystem.

Context {S : Type} `{ContentStore S}.

(** The state of the process: the global [blockchain] (its chain), the
    global [ipfs_client] (the store it talks to), [self.files] of the
    mounted [BlockchainFUSE], and the clock: [clock k] is what the
    [k]-th call of [datetime.datetime.now().isoformat()] returns. *)
Record World : Type := mkWorld {
  chain : list Block;
  ipfs : S;
  files : gmap string file_info;
  clock : nat -> string;
  ticks : nat
}.

Definition with_chain (w : World) (c : list Block) : World :=
  mkWorld c (ipfs w) (files w) (clock w) (ticks w).

Definition with_ipfs (w : World) (s : S) : World :=
  mkWorld (chain w) s (files w) (clock w) (ticks w).

Definition with_files (w : World) (f : gmap string file_info) : World :=
  mkWorld (chain w) (ipfs w) f (clock w) (ticks w).

Definition tick (w : World) : string * World :=
  (clock w (ticks w),
   mkWorld (chain w) (ipfs w) (files w) (clock w) (Datatypes.S (ticks w))).

(** The loop of [read] over the sorted blocks of the file. *)
Fixpoint read_loop (store : S) (file_blocks : list Block) (file_data : bytes)
  : result bytes :=
  match file_blocks with
  | [] => Ok file_data
  | block :: rest =>
      match download_chunk store (ipfs_hash block) with
      | None => Raise (FuseOSError EIO)
      | Some chunk_data =>
          if negb (verify_chunk chunk_data (chunk_hash block))
          then Raise (FuseOSError EIO)
          else read_loop store rest (file_data ++ chunk_data)
      end
  end.

(** The body of the [try] of [read]. *)
Definition read_body (w : World) (path : string) (size offset : Z)
  : result bytes :=
  let fname := str_tail path in
  let file_blocks := get_file_blocks (chain w) fname in
  match file_blocks with
  | [] => Raise (FuseOSError ENOENT)
  | _ :: _ =>
      let file_blocks := sort_by_index file_blocks in
      let tampered_blocks := detect_tampering (chain w) fname in
      match tampered_blocks with
      | _ :: _ => Raise (FuseOSError EIO)
      | [] =>
          match read_loop (ipfs w) file_blocks [] with
          | Raise e => Raise e
          | Ok file_data => Ok (slice file_data offset (offset + size))
          end
      end
  end.

(** [read]: whatever the body raises is caught by
    [except Exception as e], which raises [FuseOSError(errno.EIO)]. *)
Definition read (w : World) (path : string) (size offset : Z)
  : result bytes :=
  match read_body w path size offset with
  | Ok r => Ok r
  | Raise _ => Raise (FuseOSError EIO)
  end.

(** The loop of [write] over the chunks. The chain and the store keep
    what the iterations before a failure did to them. *)
Fixpoint write_loop (w : World) (fname : string) (chunks : list bytes)
  : result unit * World :=
  match chunks with
  | [] => (Ok tt, w)
  | chunk :: rest =>
      let chash := sha256_hexdigest chunk in
      let '(uploaded, store) := upload_chunk (ipfs w) chunk in
      let w := with_ipfs w store in
      match uploaded with
      | None => (Raise (FuseOSError EIO), w)
      | Some ihash =>
          let '(now, w) := tick w in
          match add_block (chain w) now fname (len chunk) chash ihash with
          | Raise e => (Raise e, w)
          | Ok (_, c) => write_loop (with_chain w c) fname rest
          end
      end
  end.

(** The body of the [try] of [write]. *)
Definition write_body (w : World) (path : string) (data : bytes) (offset : Z)
  : result Z * World :=
  let fname := str_tail path in
  if negb (offset =? 0)
  then (Raise (FuseOSError ENOSYS), w)
  else
    let chunks := split_chunks data CHUNK_SIZE in
    match write_loop w fname chunks with
    | (Raise e, w) => (Raise e, w)
    | (Ok _, w) =>
        let w := with_files w (<[fname := mkInfo (len data) 0 0 0]> (files w)) in
        (Ok (len data), w)
    end.

(** [write], with the same [except Exception] as [read]. *)
Definition write (w : World) (path : string) (data : bytes) (offset : Z)
  : result Z * World :=
  match write_body w path data offset with
  | (Ok n, w) => (Ok n, w)
  | (Raise _, w) => (Raise (FuseOSError EIO), w)
  end.

(** The position of the first chunk whose upload fails when the chunks
    are uploaded in order, each to the store the previous upload left. *)
Fixpoint first_upload_failure (store : S) (chunks : list bytes) : option nat :=
  match chunks with
  | [] => None
  | chunk :: rest =>
      match upload_chunk store chunk with
      | (None, _) => Some O
      | (Some _, store) => Datatypes.S <$> first_upload_failure store rest
      end
  end.

End Filesystem.

Arguments World S : clear implicits.

(** ** Two content stores to run the driver against *)

(** The simulated client of [scripts/verify_and_setup.py]: a dictionary
    from addresses to bytes; the address of a chunk is ["Qm"] followed by
    the first forty characters of its SHA-256 digest; an address that was
    never stored downloads as [b"simulated_chunk_data"]. *)
Definition SimStore : Type := gmap string bytes.

Definition sim_upload (storage : SimStore) (chunk_data : bytes)
  : option string * SimStore :=
  let chash := sha256_hexdigest chunk_data in
  let ihash := ("Qm" ++ String.substring 0 40 chash)%string in
  (Some ihash, <[ihash := chunk_data]> storage).

Definition sim_download (storage : SimStore) (ihash : string) : option bytes :=
  Some (default (str_encode "simulated_chunk_data") (storage !! ihash)).

#[global] Instance sim_store : ContentStore SimStore :=
  {| upload_chunk := sim_upload; download_chunk := sim_download |}.

(** A daemon that goes away: [IPFSClient] against a store that accepts
    [budget] more uploads and fails every call after that (the [except]
    branches of [upload_chunk] and [download_chunk] return [None]). *)
Record FlakyStore : Type := mkFlaky {
  budget : nat;
  blobs : gmap string bytes
}.

Definition flaky_upload (st : FlakyStore) (chunk_data : bytes)
  : option string * FlakyStore :=
  match budget st with
  | O => (None, st)
  | Datatypes.S n =>
      let ihash := ("Qm" ++ sha256_hexdigest chunk_data)%string in
      (Some ihash, mkFlaky n (<[ihash := chunk_data]> (blobs st)))
  end.

Definition flaky_download (st : FlakyStore) (ihash : string) : option bytes :=
  blobs st !! ihash.

#[global] Instance flaky_store : ContentStore FlakyStore :=
  {| upload_chunk := flaky_upload; download_chunk := flaky_download |}.

(** ** Vocabulary of the statements *)

(** What [validate_chain] checks of the block at a position [i >= 1]
    against the block before it. *)
Definition block_ok (current_block previous_block : Block) : Prop :=
  hash current_block = calculate_hash current_block /\
  previous_hash current_block = hash previous_block /\
  startswith (hash current_block) (str_repeat "0" DIFFICULTY) = true.

(** Validity as the specification words it: the three conditions on
    every block of the chain, the first one included. *)
Definition claimed_valid (chain : list Block) : Prop :=
  (forall (i : nat) (b : Block),
      chain !! i = Some b -> hash b = calculate_hash b) /\
  (forall (i : nat) (b p : Block),
      chain !! S i = Some b -> chain !! i = Some p ->
      previous_hash b = hash p) /\
  (forall (i : nat) (b : Block),
      chain !! i = Some b ->
      startswith (hash b) (str_repeat "0" DIFFICULTY) = true).

(** [chain[i].index == i] at every position. *)
Definition indexed (chain : list Block) : Prop :=
  forall (i : nat) (b : Block), chain !! i = Some b -> index b = Z.of_nat i.

(** [chain[i].previous_hash == chain[i-1].hash] at every position [i > 0]. *)
Definition linked (chain : list Block) : Prop :=
  forall (i : nat) (b p : Block),
    chain !! S i = Some b -> chain !! i = Some p -> previous_hash b = hash p.

(** The hash of [block] with its nonce set to [m] carries the
    proof-of-work prefix. *)
Definition qualifies (block : Block) (m : Z) : Prop :=
  startswith (calculate_hash (set_nonce block m)) (str_repeat "0" DIFFICULTY)
  = true.

(** Two blocks with the same fields, [nonce] and [hash] apart. *)
Definition same_work (b1 b2 : Block) : Prop :=
  index b1 = index b2 /\ timestamp b1 = timestamp b2 /\
  filename b1 = filename b2 /\ file_size b1 = file_size b2 /\
  chunk_hash b1 = chunk_hash b2 /\ ipfs_hash b1 = ipfs_hash b2 /\
  previous_hash b1 = previous_hash b2.

(** Blocks listed by strictly increasing index. *)
Definition ascending (blocks : list Block) : Prop :=
  forall (i j : nat) (b1 b2 : Block),
    (i < j)%nat -> blocks !! i = Some b1 -> blocks !! j = Some b2 ->
    index b1 < index b2.

(** Hashes are never unfolded by [simpl]. *)
Arguments sha256_hexdigest : simpl never.
Arguments calculate_hash : simpl never.
Arguments startswith : simpl never.
Arguments str_repeat : simpl never.
Arguments proof_of_work : simpl never.
#[global] Opaque sha256_hexdigest.

(** The block that [write] appends for a chunk, as far as the chunk
    determines it. *)
Definition block_of_chunk (fname : string) (b : Block) (c : bytes) : Prop :=
  filename b = fname /\ file_size b = len c /\
  chunk_hash b = sha256_hexdigest c /\ hash b = calculate_hash b.

(** ** Concrete chains and worlds for the examples *)

(** A chain as [Blockchain()] builds it when there is no chain file. *)
Definition fresh_chain : list Block :=
  init_chain [] "2024-01-01T00:00:00.000001".

(** The timestamps of the first blocks added in the examples. *)
Definition example_clock (k : nat) : string :=
  nth k ["2024-01-01T00:00:01.001111"; "2024-01-01T00:00:02.002837"]%string
      ""%string.

(** A freshly mounted filesystem over the simulated store. *)
Definition fresh_world : World SimStore :=
  mkWorld fresh_chain ∅ ∅ example_clock 0.

(** [fresh_world] after [write("/f", b"old", 0)]. *)
Definition written_world : World SimStore :=
  snd (write fresh_world "/f" (str_encode "old") 0).

(** [written_world] after a second [write("/f", b"new", 0)]. *)
Definition rewritten_world : World SimStore :=
  snd (write written_world "/f" (str_encode "new") 0).

(** [written_world] once the bytes behind the address of the chunk of
    ["/f"] have been replaced in the store. *)
Definition corrupted_world : World SimStore :=
  with_ipfs written_world
    (<["Qmcba06b5736faf67e54b07b561eae94395e774c51"%string
         := str_encode "bad"]> (ipfs written_world)).

(** A fresh filesystem over a store that accepts one upload. *)
Definition flaky_world : World FlakyStore :=
  mkWorld fresh_chain (mkFlaky 1 ∅) ∅ example_clock 0.

(** 1025 bytes: two chunks. *)
Definition two_chunks : bytes := repeat "x"%byte 1025.

(** ** The rest of blockchain.py, main.py and integrity_checker.py *)

(** [sum(xs)]. *)
Definition py_sum (xs : list Z) : Z := fold_left Z.add xs 0.

(** [0o644], [0o755], and the file-type bits [0o100000] and [0o040000]. *)
Definition DEFAULT_FILE_MODE : Z := 0x1A4.
Definition DEFAULT_DIR_MODE : Z := 0x1ED.
Definition S_IFREG : Z := 0x8000.
Definition S_IFDIR : Z := 0x4000.

(** [get_blockchain_info]: the dictionary it returns. [list(set(...))]
    is kept as the set. *)
Record blockchain_info : Type := mkChainInfo {
  total_blocks : Z;
  latest_block_hash : option string;
  is_valid : bool;
  info_files : gset string
}.

(** The names [set(block.filename for block in chain if block.filename != "GENESIS")]. *)
Definition chain_filenames (chain : list Block) : gset string :=
  list_to_set
    (map filename
         (List.filter (fun block => negb (String.eqb (filename block) "GENESIS"))
                      chain)).

Definition get_blockchain_info (chain : list Block) : blockchain_info :=
  mkChainInfo (len chain)
              (hash <$> get_latest_block chain)
              (validate_chain chain)
              (chain_filenames chain).

(** [IntegrityChecker.verify_blockchain]. *)
Definition verify_blockchain (chain : list Block) : bool :=
  match chain with
  | [] => false
  | _ :: _ => validate_chain chain
  end.

(** The dictionary [getattr] returns. *)
Module Stat.
Record t : Type := mk {
  st_mode : Z; st_nlink : Z; st_size : Z;
  st_ctime : Z; st_mtime : Z; st_atime : Z
}.
End Stat.

Section Adapter.

Context {S : Type} `{ContentStore S}.

(** [getattr]. It is not wrapped in a [try]: its [ENOENT] reaches the
    caller. [latest_block] is computed and not used; it is left out. *)
Definition getattr (w : World S) (path : string) : result Stat.t * World S :=
  if String.eqb path "/"
  then (Ok (Stat.mk (Z.lor DEFAULT_DIR_MODE S_IFDIR) 2 0 0 0 0), w)
  else
    let fname := str_tail path in
    match files w !! fname with
    | Some file_info =>
        (Ok (Stat.mk (Z.lor DEFAULT_FILE_MODE S_IFREG) 1
                     (st_size file_info) (st_ctime file_info)
                     (st_mtime file_info) (st_atime file_info)), w)
    | None =>
        let file_blocks := get_file_blocks (chain w) fname in
        match file_blocks with
        | _ :: _ =>
            let total_size := py_sum (map file_size file_blocks) in
            let w := with_files w (<[fname := mkInfo total_size 0 0 0]> (files w)) in
            (Ok (Stat.mk (Z.lor DEFAULT_FILE_MODE S_IFREG) 1 total_size 0 0 0), w)
        | [] => (Raise (FuseOSError ENOENT), w)
        end
    end.

(** [readdir]. The names come out of a Python [set], whose order is not
    specified; [elements] fixes one. *)
Definition readdir (w : World S) (path : string) : result (list string) :=
  if negb (String.eqb path "/")
  then Raise (FuseOSError ENOENT)
  else
    let blockchain_files := chain_filenames (chain w) in
    let all_files := dom (files w) ∪ blockchain_files in
    Ok (["."; ".."]%string ++ elements all_files).

(** [create]. *)
Definition create (w : World S) (path : string) (mode : Z) : Z * World S :=
  let fname := str_tail path in
  (0, with_files w (<[fname := mkInfo 0 0 0 0]> (files w))).

(** [truncate] and [unlink]. *)
Definition truncate (w : World S) (path : string) (length : Z)
  : result unit * World S :=
  (Raise (FuseOSError EPERM), w).

Definition unlink (w : World S) (path : string) : result unit * World S :=
  (Raise (FuseOSError EPERM), w).

(** The loop of [IntegrityChecker.verify_file]: a chunk that cannot be
    downloaded or does not verify is skipped ([continue]), the others
    are counted. *)
Fixpoint verify_loop (store : S) (file_blocks : list Block) (verified_chunks : Z)
  : Z :=
  match file_blocks with
  | [] => verified_chunks
  | block :: rest =>
      match download_chunk store (ipfs_hash block) with
      | None => verify_loop store rest verified_chunks
      | Some chunk_data =>
          if verify_chunk chunk_data (chunk_hash block)
          then verify_loop store rest (verified_chunks + 1)
          else verify_loop store rest verified_chunks
      end
  end.

(** [IntegrityChecker.verify_file]. *)
Definition verify_file (w : World S) (fname : string) : bool :=
  let file_blocks := get_file_blocks (chain w) fname in
  match file_blocks with
  | [] => false
  | _ :: _ =>
      let file_blocks := sort_by_index file_blocks in
      let tampered_blocks := detect_tampering (chain w) fname in
      match tampered_blocks with
      | _ :: _ => false
      | [] =>
          let total_chunks := len file_blocks in
          let verified_chunks := verify_loop (ipfs w) file_blocks 0 in
          verified_chunks =? total_chunks
      end
  end.

End Adapter.

(** ** Vocabulary of the further statements *)

(** Every block stores the hash of its own fields. *)
Definition consistent (chain : list Block) : Prop :=
  forall b, b ∈ chain -> hash b = calculate_hash b.

(** Blocks listed by non-decreasing index. *)
Definition nondecreasing (blocks : list Block) : Prop :=
  forall (i j : nat) (b1 b2 : Block),
    (i < j)%nat -> blocks !! i = Some b1 -> blocks !! j = Some b2 ->
    index b1 <= index b2.

(** [written_world] once the size recorded in the block of ["/f"] has
    been edited, the stored hash being left as it was. *)
Definition tampered_world : World SimStore :=
  with_chain written_world
    (map (fun b => if String.eqb (filename b) "f"
                   then mkBlock (index b) (timestamp b) (filename b) 4
                                (chunk_hash b) (ipfs_hash b) (previous_hash b)
                                (nonce b) (hash b)
                   else b)
         (chain written_world)).

(** The genesis block of [fresh_chain]. *)
Definition fresh_genesis : Block :=
  fst (create_genesis_block [] "2024-01-01T00:00:00.000001").

(** [written_world] mounted again: the chain and the store are kept,
    the file table starts empty. *)
Definition remounted_world : World SimStore :=
  with_files written_world ∅.

(** The addresses [upload_chunk] returns when the chunks are uploaded in
    order, each to the store the previous upload left, up to the first
    upload that fails; and the store as the last of these uploads
    leaves it. *)
Fixpoint upload_all {S : Type} `{ContentStore S}
    (store : S) (chunks : list bytes) : list string * S :=
  match chunks with
  | [] => ([], store)
  | chunk :: rest =>
      match upload_chunk store chunk with
      | (None, store) => ([], store)
      | (Some ihash, store) =>
          let '(ihashes, store) := upload_all store rest in
          (ihash :: ihashes, store)
      end
  end.

(** * Properties *)

(** ** SHA-256 test vectors (FIPS 180-4, appendix B) *)

Example sha256_empty :
  sha256_hexdigest [] =
  "e3b0c44298fc1c149afbf4c8996fb92427ae41e4649b934ca495991b7852b855"%string.
Proof. vm_compute. reflexivity. Qed.

Example sha256_abc :
  sha256_hexdigest (str_encode "abc") =
  "ba7816bf8f01cfea414140de5dae2223b00361a396177a9cb410ff61f20015ad"%string.
Proof. vm_compute. reflexivity. Qed.

Example sha256_two_blocks :
  sha256_hexdigest
    (str_encode "abcdbcdecdefdefgefghfghighijhijkijkljklmklmnlmnomnopnopq") =
  "248d6a61d20638b8e5c026930c3e6039a33ce45964ff2167f6ecedd419db06c1"%string.
Proof. vm_compute. reflexivity. Qed.

(** ** The chunk codec *)

Section Chunking.

Variable data : bytes.
Variable n : Z.
Hypothesis n_pos : 0 < n.

Lemma slice_chunk (i : Z) :
  0 <= i ->
  slice data i (i + n) = take (Z.to_nat n) (drop (Z.to_nat i) data).
Proof using n_pos.
  intros Hi. unfold slice, slice_bound, len.
  destruct (Z.ltb_spec i 0) as [?|_]; [lia|].
  destruct (Z.ltb_spec (i + n) 0) as [?|_]; [lia|].
  destruct (Z.le_gt_cases (Z.of_nat (length data)) i) as [Hge|Hlt].
  - rewrite (Z.min_r i) by lia.
    rewrite !drop_ge by lia. by rewrite !take_nil.
  - rewrite (Z.min_l i) by lia.
    destruct (Z.le_gt_cases (i + n) (Z.of_nat (length data))) as [Hin|Hout].
    + rewrite Z.min_l by lia. f_equal. lia.
    + rewrite Z.min_r by lia.
      rewrite !take_ge; [done | rewrite length_drop; lia ..].
Qed.

Lemma concat_chunks_from (cnt k0 : nat) :
  concat (map (fun k => take (Z.to_nat n) (drop (k * Z.to_nat n) data))
              (seq k0 cnt))
  = take (cnt * Z.to_nat n) (drop (k0 * Z.to_nat n) data).
Proof.
  revert k0. induction cnt as [|cnt IH]; intros k0; simpl.
  - done.
  - rewrite IH, <- take_take_drop, drop_drop.
    do 3 f_equal. lia.
Qed.

Lemma split_chunks_unfold :
  split_chunks data n =
  map (fun k => take (Z.to_nat n) (drop (k * Z.to_nat n) data))
      (seq 0 (Z.to_nat ((len data + n - 1) / n))).
Proof using n_pos.
  unfold split_chunks, py_range.
  destruct (Z.ltb_spec 0 n) as [_|?]; [|lia]. simpl.
  destruct (Z.ltb_spec 0 (len data)) as [Hpos|Hzero].
  - replace (len data - 0 + n - 1) with (len data + n - 1) by lia.
    rewrite map_map. apply map_ext_in. intros k _.
    rewrite slice_chunk by lia. do 2 f_equal. lia.
  - assert (len data = 0) as -> by (unfold len in *; lia).
    rewrite Z.div_small by lia. done.
Qed.

Lemma chunk_count_bounds :
  let cnt := (len data + n - 1) / n in
  (cnt - 1) * n < len data <= cnt * n \/ (len data = 0 /\ cnt = 0).
Proof using n_pos.
  intros cnt. unfold cnt, len.
  pose proof (Z.div_mod (Z.of_nat (length data) + n - 1) n ltac:(lia)) as E.
  pose proof (Z.mod_pos_bound (Z.of_nat (length data) + n - 1) n n_pos) as B.
  destruct (length data) as [|m] eqn:El.
  - right. split; [done|]. apply Z.div_small. lia.
  - left. nia.
Qed.

Lemma join_split : join_chunks (split_chunks data n) = data.
Proof using n_pos.
  unfold join_chunks. rewrite split_chunks_unfold, concat_chunks_from.
  simpl. rewrite drop_0. apply take_ge.
  pose proof chunk_count_bounds as B. simpl in B. unfold len in *.
  destruct B as [B|[B1 B2]]; [|lia].
  assert (0 <= (Z.of_nat (length data) + n - 1) / n) by (apply Z.div_pos; lia).
  nia.
Qed.

Lemma chunk_lookup (i : nat) (c : bytes) :
  split_chunks data n !! i = Some c ->
  (i < length (split_chunks data n))%nat /\
  c = take (Z.to_nat n) (drop (i * Z.to_nat n) data).
Proof using n_pos.
  intros Hc. split; [by eapply lookup_lt_Some|].
  rewrite split_chunks_unfold in Hc.
  rewrite list_lookup_fmap in Hc.
  destruct (seq _ _ !! i) as [k|] eqn:Hk; [|done].
  apply lookup_seq in Hk as [-> _]. simpl in Hc. by inversion Hc.
Qed.

Lemma chunk_count :
  length (split_chunks data n) = Z.to_nat ((len data + n - 1) / n).
Proof using n_pos.
  rewrite split_chunks_unfold. by rewrite length_map, length_seq.
Qed.

Lemma chunk_length (i : nat) (c : bytes) :
  split_chunks data n !! i = Some c ->
  len c = Z.min n (len data - Z.of_nat i * n) /\ 0 < len c.
Proof using n_pos.
  intros Hc. apply chunk_lookup in Hc as [Hi ->].
  rewrite chunk_count in Hi.
  pose proof chunk_count_bounds as B. simpl in B.
  unfold len in *. rewrite length_take, length_drop.
  destruct B as [B|[B1 B2]]; [|lia]. nia.
Qed.

End Chunking.

(** C4. Splitting [data] with a positive chunk size [n] gives chunks that
    all have length [n] except possibly the last one, which is shorter
    only when [n] does not divide [len(data)]; no chunk is empty; and the
    chunks joined in order are [data]. *)
Theorem split_chunks_join (data : bytes) (n : Z) :
  0 < n ->
  join_chunks (split_chunks data n) = data /\
  (forall (i : nat) (c : bytes),
      split_chunks data n !! i = Some c ->
      0 < len c <= n /\
      ((S i < length (split_chunks data n))%nat -> len c = n) /\
      (len c < n ->
       S i = length (split_chunks data n) /\ len data mod n <> 0)).
Proof.
  intros Hn. split; [by apply join_split|].
  intros i c Hc.
  pose proof (chunk_length data n Hn i c Hc) as [Hlen Hpos].
  pose proof (chunk_lookup data n Hn i c Hc) as [Hi _].
  rewrite chunk_count in * by done.
  pose proof (chunk_count_bounds data n Hn) as B. simpl in B.
  destruct B as [B|[B1 B2]]; [|lia].
  assert (0 <= (len data + n - 1) / n) by (apply Z.div_pos; unfold len; lia).
  split; [lia|]. split.
  - intros Hnext. nia.
  - intros Hshort. split; [nia|].
    intros Hdiv. apply Z.mod_divide in Hdiv as [q Hq]; [|lia].
    destruct (Z.le_gt_cases q (Z.of_nat i)); nia.
Qed.

Lemma split_chunks_join_witness :
  0 < 4 /\
  (join_chunks (split_chunks (str_encode "hello world") 4)
     = str_encode "hello world" /\
   (forall (i : nat) (c : bytes),
      split_chunks (str_encode "hello world") 4 !! i = Some c ->
      0 < len c <= 4 /\
      ((S i < length (split_chunks (str_encode "hello world") 4))%nat ->
       len c = 4) /\
      (len c < 4 ->
       S i = length (split_chunks (str_encode "hello world") 4) /\
       len (str_encode "hello world") mod 4 <> 0))).
Proof.
  split; [lia | apply (split_chunks_join (str_encode "hello world") 4); lia].
Defined.
(** ** The hash chain *)

Lemma calculate_hash_set_hash (block : Block) (h : string) :
  calculate_hash (set_hash block h) = calculate_hash block.
Proof. reflexivity. Qed.

Lemma set_nonce_twice (block : Block) (m1 m2 : Z) :
  set_nonce (set_nonce block m1) m2 = set_nonce block m2.
Proof. reflexivity. Qed.

Lemma same_work_hash (b1 b2 : Block) (m : Z) :
  same_work b1 b2 ->
  calculate_hash (set_nonce b1 m) = calculate_hash (set_nonce b2 m).
Proof.
  intros (Hi & Ht & Hf & Hs & Hc & Hp & Hq).
  unfold calculate_hash, set_nonce. simpl. congruence.
Qed.

(** *** [validate_chain] *)

Lemma validate_step_None (chain : list Block) (i : nat) :
  validate_step chain i = None <->
  exists cur prev,
    chain !! i = Some cur /\ chain !! (i - 1)%nat = Some prev /\
    block_ok cur prev.
Proof.
  unfold validate_step, block_ok.
  destruct (chain !! i) as [cur|]; [|split; [done | by intros (?&?&?&_)]].
  destruct (chain !! (i - 1)%nat) as [prev|];
    [|split; [done | by intros (?&?&_&?&_)]].
  destruct (String.eqb_spec (hash cur) (calculate_hash cur)) as [E1|N1]; simpl.
  2: { split; [done|]. intros (c & p & [= <-] & [= <-] & H1 & _). done. }
  destruct (String.eqb_spec (previous_hash cur) (hash prev)) as [E2|N2]; simpl.
  2: { split; [done|]. intros (c & p & [= <-] & [= <-] & _ & H2 & _). done. }
  destruct (startswith (hash cur) (str_repeat "0" DIFFICULTY)) eqn:E3; simpl.
  - split; [|done]. intros _. by exists cur, prev.
  - split; [done|]. intros (c & p & [= <-] & [= <-] & _ & _ & H3).
    congruence.
Qed.

Lemma validate_loop_true (chain : list Block) (idxs : list nat) :
  validate_loop chain idxs = true <->
  forall i, i ∈ idxs -> validate_step chain i = None.
Proof.
  induction idxs as [|i idxs IH]; simpl.
  - split; [|done]. intros _ i Hi. by apply elem_of_nil in Hi.
  - destruct (validate_step chain i) as [r|] eqn:Hs.
    + split.
      * intros ->. unfold validate_step in Hs.
        repeat (case_match; try done).
      * intros Hall. specialize (Hall i ltac:(left)). congruence.
    + rewrite IH. split.
      * intros Hall j [->|Hj]%elem_of_cons; auto.
      * intros Hall j Hj. apply Hall. by right.
Qed.

(** [validate_chain] is true exactly when every block but the first one
    passes the three checks against its predecessor. *)
Lemma validate_chain_spec (chain : list Block) :
  validate_chain chain = true <->
  forall (i : nat) (cur prev : Block),
    chain !! S i = Some cur -> chain !! i = Some prev -> block_ok cur prev.
Proof.
  unfold validate_chain. rewrite validate_loop_true. split.
  - intros Hall i cur prev Hc Hp.
    assert (S i ∈ seq 1 (length chain - 1)) as Hin.
    { apply elem_of_seq. apply lookup_lt_Some in Hc. lia. }
    apply Hall, validate_step_None in Hin as (c & p & Hc' & Hp' & Hok).
    replace (S i - 1)%nat with i in Hp' by lia. congruence.
  - intros Hall i [Hlo Hhi]%elem_of_seq.
    apply validate_step_None.
    destruct i as [|i]; [lia|].
    destruct (lookup_lt_is_Some_2 chain (S i) ltac:(lia)) as [cur Hc].
    destruct (lookup_lt_is_Some_2 chain i ltac:(lia)) as [prev Hp].
    exists cur, prev. replace (S i - 1)%nat with i by lia. eauto.
Qed.

(** C2, as amended. [validate_chain] returns true if and only if every
    block other than the first (the genesis block, position 0) has a
    stored hash equal to the hash recomputed from its other fields, a
    [previous_hash] equal to the hash of the block before it, and a hash
    that begins with [DIFFICULTY] characters ['0']. The first block is
    only read for its hash, by the linkage check of the second. *)
Theorem validate_chain_iff (chain : list Block) :
  validate_chain chain = true <->
  (forall (i : nat) (cur prev : Block),
      (1 <= i)%nat ->
      chain !! i = Some cur -> chain !! (i - 1)%nat = Some prev ->
      hash cur = calculate_hash cur /\
      previous_hash cur = hash prev /\
      startswith (hash cur) (str_repeat "0" DIFFICULTY) = true).
Proof.
  rewrite validate_chain_spec. split.
  - intros Hall i cur prev Hi Hc Hp. destruct i as [|i]; [lia|].
    replace (S i - 1)%nat with i in Hp by lia. exact (Hall i cur prev Hc Hp).
  - intros Hall i cur prev Hc Hp. apply (Hall (S i)); [lia | done |].
    by replace (S i - 1)%nat with i by lia.
Qed.

(** C10. [validate_chain] reads nothing of the first block but its
    [hash]: replacing the first block by any block with the same [hash]
    field, whatever its other fields, leaves the result unchanged. *)
Theorem validate_chain_ignores_genesis (g g' : Block) (rest : list Block) :
  hash g = hash g' ->
  validate_chain (g :: rest) = validate_chain (g' :: rest).
Proof.
  intros Hh. apply Bool.eq_true_iff_eq.
  rewrite !validate_chain_spec. unfold block_ok.
  split; intros Hall i cur prev Hc Hp.
  - destruct i as [|i]; simpl in *.
    + inversion Hp; subst prev. rewrite <- Hh. by apply (Hall 0%nat).
    + by apply (Hall (S i)).
  - destruct i as [|i]; simpl in *.
    + inversion Hp; subst prev. rewrite Hh. by apply (Hall 0%nat).
    + by apply (Hall (S i)).
Qed.

(** *** [proof_of_work] *)

Lemma pow_loop_spec (todo : nat) (n : Z) (block : Block) :
  (exists k : nat,
      (k < todo)%nat /\
      fst (pow_loop todo n block) = n + Z.of_nat k /\
      qualifies block (n + Z.of_nat k) /\
      forall j : nat, (j < k)%nat -> ~ qualifies block (n + Z.of_nat j))
  \/
  (fst (pow_loop todo n block) = 0 /\
   forall j : nat, (j < todo)%nat -> ~ qualifies block (n + Z.of_nat j)).
Proof.
  revert n block. induction todo as [|todo IH]; intros n block; simpl.
  - right. split; [done | lia].
  - destruct (startswith (calculate_hash (set_nonce block n)) _) eqn:Hq.
    + left. exists 0%nat. rewrite Z.add_0_r. simpl.
      split; [lia|]. split; [done|]. split; [exact Hq | lia].
    + assert (~ qualifies block n) as Hn by (unfold qualifies; congruence).
      destruct (IH (n + 1) (set_nonce block n))
        as [(k & Hk & Hr & Hqk & Hlt)|(Hr & Hnone)].
      * left. exists (S k). unfold qualifies in *.
        rewrite set_nonce_twice in Hqk.
        replace (n + Z.of_nat (S k)) with (n + 1 + Z.of_nat k) by lia.
        split; [lia|]. split; [done|]. split; [done|].
        intros [|j] Hj.
        -- by rewrite Z.add_0_r.
        -- specialize (Hlt j ltac:(lia)). rewrite set_nonce_twice in Hlt.
           by replace (n + Z.of_nat (S j)) with (n + 1 + Z.of_nat j) by lia.
      * right. split; [done|]. intros [|j] Hj.
        -- by rewrite Z.add_0_r.
        -- specialize (Hnone j ltac:(lia)). unfold qualifies in *.
           rewrite set_nonce_twice in Hnone.
           by replace (n + Z.of_nat (S j)) with (n + 1 + Z.of_nat j) by lia.
Qed.

Lemma pow_loop_same_work (todo : nat) (n : Z) (b1 b2 : Block) :
  same_work b1 b2 ->
  fst (pow_loop todo n b1) = fst (pow_loop todo n b2).
Proof.
  revert n b1 b2. induction todo as [|todo IH]; intros n b1 b2 Hs; simpl.
  - done.
  - rewrite (same_work_hash b1 b2 n Hs).
    destruct (startswith _ _); [done|].
    apply IH. unfold same_work in *. simpl. tauto.
Qed.

(** The loop only ever assigns the [nonce] field. *)
Lemma pow_loop_block (todo : nat) (n : Z) (block : Block) :
  exists m, snd (pow_loop todo n block) = set_nonce block m.
Proof.
  revert n block. induction todo as [|todo IH]; intros n block; simpl.
  - exists (nonce block). by destruct block.
  - destruct (startswith _ _); simpl; [by exists n|].
    destruct (IH (n + 1) (set_nonce block n)) as [m ->]. by exists m.
Qed.

(** C5. [proof_of_work] returns a nonce of [[0, MAX_NONCE)]; when some
    nonce of that range gives a hash with [DIFFICULTY] leading ['0']
    characters it returns the smallest such nonce; when none does it
    returns 0; and the result is the same for two blocks that differ
    only in [nonce] and [hash]. *)
Theorem proof_of_work_least (block : Block) :
  let found := fst (proof_of_work block) in
  0 <= found < MAX_NONCE /\
  ((exists m, 0 <= m < MAX_NONCE /\ qualifies block m) ->
   qualifies block found /\
   forall m, 0 <= m < found -> ~ qualifies block m) /\
  ((forall m, 0 <= m < MAX_NONCE -> ~ qualifies block m) -> found = 0) /\
  (forall block',
      same_work block block' -> fst (proof_of_work block') = found).
Proof.
  intros found. subst found. unfold proof_of_work.
  assert (0 < MAX_NONCE) as Hmax by reflexivity.
  destruct (pow_loop_spec (Z.to_nat MAX_NONCE) 0 block)
    as [(k & Hk & Hr & Hqk & Hlt)|(Hr & Hnone)]; rewrite Hr;
    simpl Z.add in *.
  - split; [lia|]. split; [|split].
    + intros _. split; [done|]. intros m Hm.
      specialize (Hlt (Z.to_nat m) ltac:(lia)).
      by rewrite Z2Nat.id in Hlt by lia.
    + intros Hno. exfalso. apply (Hno (Z.of_nat k)); [lia | done].
    + intros b' Hs. by rewrite <- (pow_loop_same_work _ _ _ _ Hs).
  - split; [lia|]. split; [|split].
    + intros (m & Hm & Hq). exfalso.
      apply (Hnone (Z.to_nat m)); [lia|]. by rewrite Z2Nat.id by lia.
    + done.
    + intros b' Hs. by rewrite <- (pow_loop_same_work _ _ _ _ Hs).
Qed.
(** *** [add_block] *)

Lemma proof_of_work_block (block : Block) :
  exists m, snd (proof_of_work block) = set_nonce block m.
Proof. apply pow_loop_block. Qed.

(** What [add_block] appends, read off its result. *)
Lemma add_block_inv (chain chain' : list Block) (now fname : string)
    (fsize : Z) (chash ihash : string) (b : Block) :
  add_block chain now fname fsize chash ihash = Ok (b, chain') ->
  exists prev,
    last chain = Some prev /\ chain' = chain ++ [b] /\
    index b = len chain /\ timestamp b = now /\ filename b = fname /\
    file_size b = fsize /\ chunk_hash b = chash /\ ipfs_hash b = ihash /\
    previous_hash b = hash prev /\ hash b = calculate_hash b.
Proof.
  unfold add_block, get_latest_block.
  destruct (last chain) as [prev|]; [|done].
  destruct (proof_of_work _) as [found nb] eqn:Hpow.
  destruct (proof_of_work_block
              (mkBlock (len chain) now fname fsize chash ihash (hash prev) 0 ""))
    as [m Hm].
  rewrite Hpow in Hm. simpl in Hm. subst nb.
  intros [= <- <-]. exists prev. by repeat split.
Qed.

Lemma add_block_Ok (chain : list Block) (now fname : string)
    (fsize : Z) (chash ihash : string) (prev : Block) :
  last chain = Some prev ->
  exists b, add_block chain now fname fsize chash ihash = Ok (b, chain ++ [b]).
Proof.
  intros Hlast. unfold add_block, get_latest_block. rewrite Hlast.
  destruct (proof_of_work _) as [found nb]. eauto.
Qed.

Lemma add_block_empty (now fname : string) (fsize : Z) (chash ihash : string) :
  add_block [] now fname fsize chash ihash = Raise AttributeError.
Proof. reflexivity. Qed.

Lemma last_lookup_pred (chain : list Block) (prev : Block) :
  last chain = Some prev -> chain !! (length chain - 1)%nat = Some prev.
Proof.
  rewrite last_lookup. intros Hl.
  by replace (length chain - 1)%nat with (Nat.pred (length chain)) by lia.
Qed.

Lemma indexed_snoc (chain : list Block) (b : Block) :
  indexed chain -> index b = len chain -> indexed (chain ++ [b]).
Proof.
  intros Hidx Hb i x Hx.
  destruct (decide (i < length chain)%nat) as [Hlt|Hge].
  - rewrite lookup_app_l in Hx by done. by apply Hidx.
  - rewrite lookup_app_r in Hx by lia.
    destruct (i - length chain)%nat as [|k] eqn:Hk; [|by destruct k].
    simpl in Hx. inversion Hx; subst x. rewrite Hb. unfold len. lia.
Qed.

Lemma linked_snoc (chain : list Block) (b prev : Block) :
  linked chain -> last chain = Some prev -> previous_hash b = hash prev ->
  linked (chain ++ [b]).
Proof.
  intros Hlink Hlast Hb i x p Hx Hp.
  pose proof (last_lookup_pred _ _ Hlast) as Hprev.
  assert (length chain <> 0)%nat as Hne by (by destruct chain).
  destruct (decide (S i < length chain)%nat) as [Hlt|Hge].
  - rewrite lookup_app_l in Hx by done.
    rewrite lookup_app_l in Hp by lia. by eapply Hlink.
  - rewrite lookup_app_r in Hx by lia.
    destruct (S i - length chain)%nat as [|k] eqn:Hk; [|by destruct k].
    simpl in Hx. inversion Hx; subst x.
    rewrite lookup_app_l in Hp by lia.
    replace i with (length chain - 1)%nat in Hp by lia. congruence.
Qed.

(** C9. On a chain whose blocks carry their position as [index] and the
    hash of their predecessor as [previous_hash], [add_block] returns a
    block that is the new last element of the chain, the blocks before it
    being unchanged; its [index] is the old length of the chain, its
    [previous_hash] is the hash of the block that was last, its stored
    hash is the hash recomputed from its other fields, and the two chain
    invariants hold again. *)
Theorem add_block_preserves (chain : list Block) (now fname : string)
    (fsize : Z) (chash ihash : string) (prev : Block) :
  indexed chain ->
  linked chain ->
  last chain = Some prev ->
  exists b,
    add_block chain now fname fsize chash ihash = Ok (b, chain ++ [b]) /\
    last (chain ++ [b]) = Some b /\
    index b = len chain /\
    previous_hash b = hash prev /\
    hash b = calculate_hash b /\
    indexed (chain ++ [b]) /\
    linked (chain ++ [b]).
Proof.
  intros Hidx Hlink Hlast.
  destruct (add_block_Ok chain now fname fsize chash ihash prev Hlast)
    as [b Hb].
  exists b. split; [done|].
  apply add_block_inv in Hb
    as (prev' & Hlast' & _ & Hi & _ & _ & _ & _ & _ & Hp & Hh).
  assert (prev' = prev) as -> by congruence.
  split; [by rewrite last_snoc|].
  repeat split; try done.
  - by apply indexed_snoc.
  - by eapply linked_snoc.
Qed.

Lemma indexed_fresh_chain : indexed fresh_chain.
Proof. intros [|[|i]] b; vm_compute; intros [= <-]; reflexivity. Qed.

Lemma linked_fresh_chain : linked fresh_chain.
Proof. intros [|[|i]] b p; vm_compute; intros [=]. Qed.

Lemma add_block_preserves_witness :
  indexed fresh_chain /\ linked fresh_chain /\
  exists prev, last fresh_chain = Some prev /\
  exists b,
    add_block fresh_chain "2024-01-01T00:00:01.001111" "f" 3
      (sha256_hexdigest (str_encode "old")) "Qm" = Ok (b, fresh_chain ++ [b]) /\
    last (fresh_chain ++ [b]) = Some b /\
    index b = len fresh_chain /\
    previous_hash b = hash prev /\
    hash b = calculate_hash b /\
    indexed (fresh_chain ++ [b]) /\
    linked (fresh_chain ++ [b]).
Proof.
  split; [exact indexed_fresh_chain|]. split; [exact linked_fresh_chain|].
  eexists. split; [vm_compute; reflexivity|].
  apply add_block_preserves;
    [exact indexed_fresh_chain | exact linked_fresh_chain
     | vm_compute; reflexivity].
Defined.

(** *** [get_file_blocks] *)

Lemma get_file_blocks_elem (chain : list Block) (fname : string) (b : Block) :
  b ∈ get_file_blocks chain fname <-> b ∈ chain /\ filename b = fname.
Proof.
  unfold get_file_blocks. rewrite !list_elem_of_In, filter_In.
  by rewrite String.eqb_eq.
Qed.

Lemma get_file_blocks_app (c1 c2 : list Block) (fname : string) :
  get_file_blocks (c1 ++ c2) fname =
  get_file_blocks c1 fname ++ get_file_blocks c2 fname.
Proof. apply List.filter_app. Qed.

Lemma get_file_blocks_sublist (chain : list Block) (fname : string) :
  sublist (get_file_blocks chain fname) chain.
Proof.
  induction chain as [|b chain IH]; simpl; [done|].
  destruct (String.eqb _ _); by constructor.
Qed.

Lemma indexed_ascending (chain : list Block) : indexed chain -> ascending chain.
Proof.
  intros Hidx i j b1 b2 Hij H1 H2.
  rewrite (Hidx _ _ H1), (Hidx _ _ H2). lia.
Qed.

Lemma ascending_cons_inv (b : Block) (l : list Block) :
  ascending (b :: l) ->
  ascending l /\ forall x, x ∈ l -> index b < index x.
Proof.
  intros Hasc. split.
  - intros i j b1 b2 Hij H1 H2. apply (Hasc (S i) (S j)); [lia | done..].
  - intros x [k Hk]%list_elem_of_lookup.
    apply (Hasc 0%nat (S k)); [lia | done..].
Qed.

Lemma ascending_cons (b : Block) (l : list Block) :
  ascending l -> (forall x, x ∈ l -> index b < index x) -> ascending (b :: l).
Proof.
  intros Hasc Hlt [|i] [|j] b1 b2 Hij H1 H2; try lia; simpl in *.
  - inversion H1; subst b1. apply Hlt. by eapply list_elem_of_lookup_2.
  - by apply (Hasc i j); [lia | ..].
Qed.

Lemma ascending_sublist (l1 l2 : list Block) :
  sublist l1 l2 -> ascending l2 -> ascending l1.
Proof.
  induction 1 as [|x l1 l2 Hsub IH|x l1 l2 Hsub IH]; intros Hasc.
  - done.
  - apply ascending_cons_inv in Hasc as [Hasc Hlt].
    apply ascending_cons; [by apply IH|].
    intros y Hy. apply Hlt. by eapply elem_of_sublist.
  - apply ascending_cons_inv in Hasc as [Hasc _]. by apply IH.
Qed.

(** C7, as amended. [get_file_blocks] returns exactly the blocks of the
    chain whose [filename] equals the argument, in the order of the chain,
    which is the order of strictly increasing [index] when every block
    carries its position as [index]. It holds a block named ["GENESIS"]
    only when the argument is ["GENESIS"] itself. *)
Theorem get_file_blocks_exact (chain : list Block) (fname : string) :
  (forall b, b ∈ get_file_blocks chain fname <->
             b ∈ chain /\ filename b = fname) /\
  sublist (get_file_blocks chain fname) chain /\
  (indexed chain -> ascending (get_file_blocks chain fname)) /\
  (fname <> "GENESIS"%string ->
   forall b, b ∈ get_file_blocks chain fname ->
             filename b <> "GENESIS"%string).
Proof.
  split; [apply get_file_blocks_elem|].
  split; [apply get_file_blocks_sublist|]. split.
  - intros Hidx. eapply ascending_sublist; [apply get_file_blocks_sublist|].
    by apply indexed_ascending.
  - intros Hne b [_ Hb]%get_file_blocks_elem. congruence.
Qed.

(** The genesis block of a new chain is returned for ["GENESIS"]. *)
Lemma get_file_blocks_genesis_counterexample :
  get_file_blocks fresh_chain "GENESIS" <> [] /\
  exists b, b ∈ get_file_blocks fresh_chain "GENESIS" /\
            filename b = "GENESIS"%string.
Proof.
  split; [by vm_compute|].
  eexists. split; [apply list_elem_of_lookup; exists 0%nat; vm_compute; reflexivity|].
  reflexivity.
Qed.

(** The first block of a new chain validates although its hash does not
    carry the proof-of-work prefix. *)
Lemma validate_chain_genesis_counterexample :
  ~ (validate_chain fresh_chain = true <-> claimed_valid fresh_chain).
Proof.
  intros [Hto _].
  destruct (Hto ltac:(vm_compute; reflexivity)) as (_ & _ & Hpow).
  specialize (Hpow 0%nat _ ltac:(vm_compute; reflexivity)).
  vm_compute in Hpow. discriminate.
Qed.
(** ** Sorting the blocks of a file *)

Lemma insert_by_index_elem (b x : Block) (l : list Block) :
  x ∈ insert_by_index b l <-> x = b \/ x ∈ l.
Proof.
  induction l as [|y l IH]; simpl.
  - rewrite list_elem_of_singleton, elem_of_nil. tauto.
  - destruct (index b <=? index y).
    + by rewrite elem_of_cons.
    + rewrite !elem_of_cons, IH. tauto.
Qed.

Lemma sort_by_index_elem (x : Block) (l : list Block) :
  x ∈ sort_by_index l <-> x ∈ l.
Proof.
  induction l as [|y l IH]; simpl; [done|].
  by rewrite insert_by_index_elem, elem_of_cons, IH.
Qed.

Lemma sort_by_index_ascending (l : list Block) :
  ascending l -> sort_by_index l = l.
Proof.
  induction l as [|b l IH]; intros Hasc; simpl; [done|].
  apply ascending_cons_inv in Hasc as [Hasc Hlt].
  rewrite IH by done. destruct l as [|y l]; simpl; [done|].
  specialize (Hlt y ltac:(left)).
  destruct (Z.leb_spec (index b) (index y)); [done | lia].
Qed.

Lemma filter_none {A : Type} (f : A -> bool) (l : list A) :
  (forall x, x ∈ l -> f x = false) -> List.filter f l = [].
Proof.
  induction l as [|x l IH]; intros Hall; simpl; [done|].
  rewrite (Hall x) by left. apply IH. intros y Hy. apply Hall. by right.
Qed.

(** ** Slices *)

Lemma slice_all {A : Type} (l : list A) : slice l 0 (0 + len l) = l.
Proof.
  unfold slice, slice_bound, len. rewrite Z.add_0_l.
  destruct (Z.ltb_spec 0 0); [lia|].
  destruct (Z.ltb_spec (Z.of_nat (length l)) 0); [lia|].
  rewrite Z.min_id, Z.min_l by lia. rewrite drop_0.
  apply take_ge. lia.
Qed.

Section FilesystemFacts.

Context {S : Type} `{ContentStore S}.

(** *** [read] *)

Lemma read_loop_result (store : S) (blocks : list Block) (acc : bytes) :
  (exists d, read_loop store blocks acc = Ok d) \/
  read_loop store blocks acc = Raise (FuseOSError EIO).
Proof.
  revert acc. induction blocks as [|b blocks IH]; intros acc; simpl.
  - left. eauto.
  - destruct (download_chunk store (ipfs_hash b)) as [d|]; [|by right].
    destruct (verify_chunk d (chunk_hash b)); simpl; [apply IH | by right].
Qed.

Lemma read_loop_mismatch (store : S) (blocks : list Block) (acc : bytes)
    (b : Block) (d : bytes) :
  b ∈ blocks ->
  download_chunk store (ipfs_hash b) = Some d ->
  sha256_hexdigest d <> chunk_hash b ->
  read_loop store blocks acc = Raise (FuseOSError EIO).
Proof.
  intros Hin Hd Hne. revert acc.
  induction blocks as [|x blocks IH]; intros acc; [by apply elem_of_nil in Hin|].
  simpl. apply elem_of_cons in Hin as [<-|Hin].
  - rewrite Hd. unfold verify_chunk.
    by destruct (String.eqb_spec (sha256_hexdigest d) (chunk_hash b)).
  - destruct (download_chunk store (ipfs_hash x)) as [dx|]; [|done].
    destruct (verify_chunk dx (chunk_hash x)); simpl; [by apply IH | done].
Qed.

Lemma read_loop_chunks (store : S) (blocks : list Block)
    (chunks : list bytes) (acc : bytes) :
  Forall2 (fun b c => download_chunk store (ipfs_hash b) = Some c /\
                      chunk_hash b = sha256_hexdigest c) blocks chunks ->
  read_loop store blocks acc = Ok (acc ++ concat chunks).
Proof.
  intros Hall. revert acc.
  induction Hall as [|b c blocks chunks [Hd Hh] _ IH]; intros acc; simpl.
  - by rewrite app_nil_r.
  - rewrite Hd. unfold verify_chunk. rewrite Hh, String.eqb_refl. simpl.
    rewrite IH. by rewrite app_assoc.
Qed.

(** Whatever goes wrong in [read], the caller sees [EIO]. *)
Lemma read_result (w : World S) (path : string) (size offset : Z) :
  (exists d, read w path size offset = Ok d) \/
  read w path size offset = Raise (FuseOSError EIO).
Proof.
  unfold read. destruct (read_body w path size offset); eauto.
Qed.

Lemma read_missing (w : World S) (path : string) (size offset : Z) :
  get_file_blocks (chain w) (str_tail path) = [] ->
  read_body w path size offset = Raise (FuseOSError ENOENT) /\
  read w path size offset = Raise (FuseOSError EIO).
Proof.
  intros Hnone. unfold read, read_body. by rewrite Hnone.
Qed.

(** C1. When the store returns, for some block of the file, bytes
    whose SHA-256 digest is not the [chunk_hash] of that block, [read]
    raises [FuseOSError(EIO)], the error of the failed verification,
    and returns no bytes, whatever the size and the offset asked for. *)
Theorem read_hash_mismatch (w : World S) (path : string) (size offset : Z)
    (i : nat) (b : Block) (d : bytes) :
  get_file_blocks (chain w) (str_tail path) !! i = Some b ->
  download_chunk (ipfs w) (ipfs_hash b) = Some d ->
  sha256_hexdigest d <> chunk_hash b ->
  read w path size offset = Raise (FuseOSError EIO).
Proof.
  intros Hb Hd Hne. apply list_elem_of_lookup_2 in Hb.
  unfold read, read_body.
  destruct (get_file_blocks (chain w) (str_tail path)) as [|x l] eqn:Hl;
    [done|].
  destruct (detect_tampering (chain w) (str_tail path)); [|done].
  rewrite (read_loop_mismatch (ipfs w) (sort_by_index (x :: l)) [] b d);
    [done | by apply sort_by_index_elem | done..].
Qed.

(** *** [write] *)

Lemma write_loop_spec (chunks : list bytes) (w w' : World S)
    (fname : string) (r : result unit) :
  last (chain w) <> None ->
  write_loop w fname chunks = (r, w') ->
  exists new,
    chain w' = chain w ++ new /\
    files w' = files w /\
    Forall2 (block_of_chunk fname) new (take (length new) chunks) /\
    (forall (i : nat) (b : Block),
        new !! i = Some b -> index b = len (chain w) + Z.of_nat i) /\
    match r with
    | Ok _ => length new = length chunks /\
              first_upload_failure (ipfs w) chunks = None
    | Raise e => e = FuseOSError EIO /\
                 first_upload_failure (ipfs w) chunks = Some (length new)
    end.
Proof.
  revert w. induction chunks as [|chunk rest IH]; intros w Hlast; simpl.
  - intros [= <- <-]. exists []. rewrite app_nil_r.
    repeat split; first [done | constructor].
  - destruct (upload_chunk (ipfs w) chunk) as [[ihash|] store] eqn:Hup;
      simpl.
    2: { intros [= <- <-]. exists []. simpl. rewrite app_nil_r.
         repeat split; first [done | constructor]. }
    destruct (last (chain w)) as [prev|] eqn:Hprev; [clear Hlast|done].
    destruct (add_block_Ok (chain w) (clock w (ticks w)) fname (len chunk)
                (sha256_hexdigest chunk) ihash prev Hprev) as [b Hb].
    rewrite Hb.
    apply add_block_inv in Hb
      as (_ & _ & _ & Hi & _ & Hf & Hs & Hc & _ & _ & Hh).
    intros Hrec. apply IH in Hrec; simpl; [|by rewrite last_snoc].
    destruct Hrec as (new & Hchain & Hfiles & Hall & Hidx & Hr).
    simpl in *. exists (b :: new). simpl.
    split; [by rewrite Hchain, <- app_assoc|]. split; [done|].
    split; [by constructor|]. split.
    + intros [|k] x Hx; simpl in Hx.
      * inversion Hx; subst x. lia.
      * apply Hidx in Hx. unfold len in *. rewrite length_app in Hx.
        simpl in Hx. lia.
    + destruct r as [u|e].
      * destruct Hr as [Hlen Hnone]. by rewrite Hlen, Hnone.
      * destruct Hr as [He Hsome]. by rewrite Hsome.
Qed.

Lemma write_loop_needs_chain (w w' : World S) (fname : string)
    (chunk : bytes) (rest : list bytes) (u : unit) :
  write_loop w fname (chunk :: rest) = (Ok u, w') -> last (chain w) <> None.
Proof.
  simpl. destruct (upload_chunk (ipfs w) chunk) as [[ihash|] store];
    simpl; [|done].
  destruct (chain w) as [|x l]; [|by rewrite last_cons; destruct (last l)].
  by rewrite add_block_empty.
Qed.

(** C8. When the upload of chunk [k] is the first one to fail, [write]
    raises [FuseOSError(EIO)]; the chain is the old chain followed by
    [k] new blocks, one for each of the chunks before [k] and in their
    order, so that nothing appended is rolled back and nothing is
    appended for chunk [k] or a later one. *)
Theorem write_upload_failure (w : World S) (path : string) (data : bytes)
    (k : nat) :
  chain w <> [] ->
  first_upload_failure (ipfs w) (split_chunks data CHUNK_SIZE) = Some k ->
  exists w' new,
    write w path data 0 = (Raise (FuseOSError EIO), w') /\
    chain w' = chain w ++ new /\
    length new = k /\
    Forall2 (block_of_chunk (str_tail path)) new
            (take k (split_chunks data CHUNK_SIZE)) /\
    files w' = files w.
Proof.
  intros Hne Hfail. unfold write, write_body. simpl.
  destruct (write_loop w (str_tail path) (split_chunks data CHUNK_SIZE))
    as [r w'] eqn:Hloop.
  apply write_loop_spec in Hloop
    as (new & Hchain & Hfiles & Hall & _ & Hr).
  2: { destruct (chain w) as [|x l]; [done|].
       rewrite last_cons. by destruct (last l). }
  destruct r as [u|e].
  - destruct Hr as [_ Hnone]. congruence.
  - destruct Hr as [_ Hsome].
    assert (length new = k) as Hk by congruence.
    exists w', new. rewrite <- Hk. by repeat split.
Qed.

(** A [write] loop that returns has recorded in each block it
    appended the address [upload_chunk] returned for the chunk, and
    leaves the store as these uploads left it. *)
Lemma write_loop_addresses (chunks : list bytes) (w w' : World S)
    (fname : string) (u : unit) :
  write_loop w fname chunks = (Ok u, w') ->
  exists new,
    chain w' = chain w ++ new /\
    map ipfs_hash new = fst (upload_all (ipfs w) chunks) /\
    ipfs w' = snd (upload_all (ipfs w) chunks).
Proof.
  revert w. induction chunks as [|chunk rest IH]; intros w; simpl.
  - intros Heq. inversion Heq; subst. exists []. by rewrite app_nil_r.
  - destruct (upload_chunk (ipfs w) chunk) as [[ihash|] store] eqn:Hup;
      simpl; [|done].
    destruct (add_block _ _ _ _ _ _) as [[b c]|e] eqn:Hadd; [|done].
    apply add_block_inv in Hadd
      as (_ & _ & -> & _ & _ & _ & _ & _ & Hi & _ & _).
    intros (new & Hchain & Haddr & Hstore)%IH. simpl in *.
    destruct (upload_all store rest) as [ihashes store']. simpl in *.
    exists (b :: new). simpl.
    split; [by rewrite Hchain, <- app_assoc|]. split; [congruence | done].
Qed.

(** C3, as amended. For a file that has no block on the chain yet and
    non-empty [data], a [write] at offset 0 that succeeds, followed by a
    [read] of [len(data)] bytes at offset 0, returns [data], provided
    the store returns, under each address [upload_chunk] returned
    during the write, the chunk that was uploaded for it. *)
Theorem read_after_write (w w' : World S) (path : string) (data : bytes)
    (n : Z) :
  get_file_blocks (chain w) (str_tail path) = [] ->
  data <> [] ->
  write w path data 0 = (Ok n, w') ->
  Forall2 (fun ihash c => download_chunk (ipfs w') ihash = Some c)
          (fst (upload_all (ipfs w) (split_chunks data CHUNK_SIZE)))
          (split_chunks data CHUNK_SIZE) ->
  read w' path (len data) 0 = Ok data.
Proof.
  intros Hfresh Hdata Hwrite Hstore.
  unfold write, write_body in Hwrite. simpl in Hwrite.
  destruct (write_loop w (str_tail path) (split_chunks data CHUNK_SIZE))
    as [r w1] eqn:Hloop.
  destruct r as [u|e]; [|done]. inversion Hwrite; subst n w'; clear Hwrite.
  simpl in *.
  pose proof (join_split data CHUNK_SIZE ltac:(done)) as Hjoin.
  destruct (split_chunks data CHUNK_SIZE) as [|c0 cs] eqn:Hsplit.
  { simpl in Hjoin. congruence. }
  pose proof (write_loop_needs_chain _ _ _ _ _ _ Hloop) as Hlast.
  pose proof (write_loop_addresses _ _ _ _ _ Hloop)
    as (new' & Hchain' & Haddr & _).
  apply write_loop_spec in Hloop
    as (new & Hchain & Hfiles & Hall & Hidx & Hlen & _); [|done].
  rewrite Hlen, firstn_all in Hall.
  assert (new' = new) as ->.
  { rewrite Hchain in Hchain'. by apply app_inv_head in Hchain'. }
  rewrite <- Haddr in Hstore. apply Forall2_fmap_l in Hstore.
  assert (get_file_blocks (chain w1) (str_tail path) = new) as Hblocks.
  { rewrite Hchain, get_file_blocks_app, Hfresh. simpl.
    unfold get_file_blocks. apply forallb_filter_id, forallb_forall.
    intros b Hb%list_elem_of_In. apply String.eqb_eq.
    apply list_elem_of_lookup in Hb as [i Hb].
    destruct (Forall2_lookup_l _ _ _ _ _ Hall Hb) as (c & _ & Hbc).
    apply Hbc. }
  assert (ascending new) as Hasc.
  { intros i j b1 b2 Hij H1 H2.
    rewrite (Hidx _ _ H1), (Hidx _ _ H2). lia. }
  unfold read, read_body. simpl. rewrite Hblocks.
  assert (detect_tampering (chain w1) (str_tail path) = []) as ->.
  { unfold detect_tampering. rewrite Hblocks.
    replace (List.filter _ new) with (@nil Block); [done|].
    symmetry. apply filter_none. intros b Hb.
    apply list_elem_of_lookup in Hb as [i Hb].
    destruct (Forall2_lookup_l _ _ _ _ _ Hall Hb) as (c & _ & Hbc).
    destruct Hbc as (_ & _ & _ & ->). by rewrite String.eqb_refl. }
  rewrite (sort_by_index_ascending new Hasc).
  rewrite (read_loop_chunks (ipfs w1) new (c0 :: cs) []).
  - destruct new; [done|]. unfold join_chunks in Hjoin.
    rewrite app_nil_l, Hjoin. f_equal. apply slice_all.
  - clear -Hall Hstore. revert Hstore.
    induction Hall as [|b c bs cs' Hbc _ IH]; intros Hstore;
      inversion Hstore; subst; constructor; [|by apply IH].
    split; [done|]. apply Hbc.
Qed.

End FilesystemFacts.
(** ** The read and write paths on concrete filesystems *)

Lemma read_hash_mismatch_witness :
  exists b d,
    get_file_blocks (chain corrupted_world) (str_tail "/f") !! 0%nat = Some b /\
    download_chunk (ipfs corrupted_world) (ipfs_hash b) = Some d /\
    sha256_hexdigest d <> chunk_hash b /\
    read corrupted_world "/f" 3 0 = Raise (FuseOSError EIO).
Proof.
  eexists. exists (str_encode "bad").
  split; [vm_compute; reflexivity|].
  split; [vm_compute; reflexivity|].
  split; [vm_compute; discriminate|].
  eapply (read_hash_mismatch corrupted_world "/f" 3 0 0%nat _ (str_encode "bad"));
    [vm_compute; reflexivity | vm_compute; reflexivity
     | vm_compute; discriminate].
Defined.

(** C6. Reading a file that has no block on the chain: the body of
    [read] raises [FuseOSError(ENOENT)], the [except Exception] clause
    around it catches that error and [read] raises [FuseOSError(EIO)]. *)
Theorem read_missing_raises_EIO :
  get_file_blocks (chain fresh_world) (str_tail "/missing") = [] /\
  read_body fresh_world "/missing" 10 0 = Raise (FuseOSError ENOENT) /\
  read fresh_world "/missing" 10 0 = Raise (FuseOSError EIO).
Proof. by vm_compute. Qed.

Lemma write_upload_failure_witness :
  chain flaky_world <> [] /\
  first_upload_failure (ipfs flaky_world)
    (split_chunks two_chunks CHUNK_SIZE) = Some 1%nat /\
  exists w' new,
    write flaky_world "/f" two_chunks 0 = (Raise (FuseOSError EIO), w') /\
    chain w' = chain flaky_world ++ new /\
    length new = 1%nat /\
    Forall2 (block_of_chunk (str_tail "/f")) new
            (take 1 (split_chunks two_chunks CHUNK_SIZE)) /\
    files w' = files flaky_world.
Proof.
  split; [vm_compute; discriminate|].
  split; [vm_compute; reflexivity|].
  apply (write_upload_failure flaky_world "/f" two_chunks 1);
    [vm_compute; discriminate | vm_compute; reflexivity].
Defined.

Lemma read_after_write_witness :
  get_file_blocks (chain fresh_world) (str_tail "/f") = [] /\
  str_encode "old" <> [] /\
  write fresh_world "/f" (str_encode "old") 0 = (Ok 3, written_world) /\
  Forall2 (fun ihash c => download_chunk (ipfs written_world) ihash = Some c)
          (fst (upload_all (ipfs fresh_world)
                  (split_chunks (str_encode "old") CHUNK_SIZE)))
          (split_chunks (str_encode "old") CHUNK_SIZE) /\
  read written_world "/f" (len (str_encode "old")) 0 = Ok (str_encode "old").
Proof.
  split; [vm_compute; reflexivity|].
  split; [vm_compute; discriminate|].
  split; [vm_compute; reflexivity|].
  split; [vm_compute; repeat constructor|].
  apply (read_after_write fresh_world written_world "/f" (str_encode "old") 3);
    [vm_compute; reflexivity | vm_compute; discriminate
     | vm_compute; reflexivity | vm_compute; repeat constructor].
Defined.

(** Two ways a read after a successful write does not return the data
    written, the store being faithful (it returns, under each address
    the uploads of the write returned and for each block the write
    appended, the chunk uploaded): nothing is appended for empty data,
    so the file does not exist; and the blocks of an earlier write of
    the same file come first in what [read] assembles. *)
Lemma read_after_write_counterexample :
  (exists w',
      write fresh_world "/f" [] 0 = (Ok 0, w') /\
      Forall2 (fun b c => download_chunk (ipfs w') (ipfs_hash b) = Some c)
              (drop (length (chain fresh_world)) (chain w'))
              (split_chunks [] CHUNK_SIZE) /\
      Forall2 (fun ihash c => download_chunk (ipfs w') ihash = Some c)
              (fst (upload_all (ipfs fresh_world) (split_chunks [] CHUNK_SIZE)))
              (split_chunks [] CHUNK_SIZE) /\
      read w' "/f" (len (@nil byte)) 0 = Raise (FuseOSError EIO)) /\
  (write written_world "/f" (str_encode "new") 0 = (Ok 3, rewritten_world) /\
   Forall2 (fun b c => download_chunk (ipfs rewritten_world) (ipfs_hash b) = Some c)
           (drop (length (chain written_world)) (chain rewritten_world))
           (split_chunks (str_encode "new") CHUNK_SIZE) /\
   Forall2 (fun ihash c => download_chunk (ipfs rewritten_world) ihash = Some c)
           (fst (upload_all (ipfs written_world)
                   (split_chunks (str_encode "new") CHUNK_SIZE)))
           (split_chunks (str_encode "new") CHUNK_SIZE) /\
   read rewritten_world "/f" (len (str_encode "new")) 0 = Ok (str_encode "old") /\
   str_encode "old" <> str_encode "new").
Proof.
  split.
  - eexists. split; [vm_compute; reflexivity|].
    split; [vm_compute; constructor|].
    split; [vm_compute; constructor | vm_compute; reflexivity].
  - split; [vm_compute; reflexivity|].
    split; [vm_compute; repeat constructor|].
    split; [vm_compute; repeat constructor|].
    split; [vm_compute; reflexivity | vm_compute; discriminate].
Qed.

Lemma validate_chain_ignores_genesis_witness :
  hash (mkBlock 0 "t" "GENESIS" 0 "c" "" "p" 0 "h") =
  hash (mkBlock 7 "u" "other" 9 "d" "a" "q" 5 "h") /\
  validate_chain [mkBlock 0 "t" "GENESIS" 0 "c" "" "p" 0 "h";
                  mkBlock 1 "v" "f" 3 "e" "a" "h" 0 "000"] =
  validate_chain [mkBlock 7 "u" "other" 9 "d" "a" "q" 5 "h";
                  mkBlock 1 "v" "f" 3 "e" "a" "h" 0 "000"].
Proof.
  split; [reflexivity|].
  apply validate_chain_ignores_genesis. reflexivity.
Defined.
(** * Further properties of the ledger *)

Lemma consistent_snoc (chain : list Block) (b : Block) :
  consistent chain -> hash b = calculate_hash b -> consistent (chain ++ [b]).
Proof.
  intros Hc Hb x [Hx|Hx]%elem_of_app; [by apply Hc|].
  apply list_elem_of_singleton in Hx. by subst x.
Qed.

Lemma detect_tampering_elem (chain : list Block) (fname : string) (z : Z) :
  z ∈ detect_tampering chain fname <->
  exists b, b ∈ chain /\ filename b = fname /\
            hash b <> calculate_hash b /\ index b = z.
Proof.
  unfold detect_tampering. rewrite list_elem_of_fmap. split.
  - intros (b & -> & Hb). apply list_elem_of_In, filter_In in Hb as [Hb Hne].
    apply list_elem_of_In, get_file_blocks_elem in Hb as [Hb Hf].
    exists b. repeat split; try done.
    intros Heq. rewrite Heq, String.eqb_refl in Hne. done.
  - intros (b & Hb & Hf & Hne & <-). exists b. split; [done|].
    apply list_elem_of_In, filter_In. split.
    + apply list_elem_of_In, get_file_blocks_elem. done.
    + by destruct (String.eqb_spec (hash b) (calculate_hash b)).
Qed.

(** [detect_tampering] returns the indices of exactly those blocks of
    the file whose stored hash differs from the hash of their fields; it
    returns the empty list exactly when there is no such block, whatever
    the links between the blocks and their proof of work. *)
Theorem detect_tampering_spec (chain : list Block) (fname : string) :
  (forall z, z ∈ detect_tampering chain fname <->
             exists b, b ∈ chain /\ filename b = fname /\
                       hash b <> calculate_hash b /\ index b = z) /\
  (detect_tampering chain fname = [] <->
   forall b, b ∈ chain -> filename b = fname -> hash b = calculate_hash b).
Proof.
  split; [apply detect_tampering_elem|]. split.
  - intros Hnil b Hb Hf.
    destruct (String.eqb_spec (hash b) (calculate_hash b)) as [|Hne]; [done|].
    assert (index b ∈ detect_tampering chain fname) as Hin.
    { apply detect_tampering_elem. by exists b. }
    rewrite Hnil in Hin. by apply elem_of_nil in Hin.
  - intros Hall. destruct (detect_tampering chain fname) as [|z l] eqn:Hd;
      [done|].
    assert (z ∈ detect_tampering chain fname) as Hin by (rewrite Hd; left).
    apply detect_tampering_elem in Hin as (b & Hb & Hf & Hne & _).
    by specialize (Hall b Hb Hf).
Qed.

Lemma consistent_no_tampering (chain : list Block) (fname : string) :
  consistent chain -> detect_tampering chain fname = [].
Proof.
  intros Hc. apply detect_tampering_spec. intros b Hb _. by apply Hc.
Qed.

(** A chain created from nothing is one genesis block: index 0, name
    ["GENESIS"], size 0, sixty-four zeros as [previous_hash], the hash of
    its fields as [hash]. It validates, although it is not mined, and no
    file of it is reported as tampered. A chain that was loaded with
    blocks in it is kept as it is. *)
Theorem init_chain_genesis (now : string) :
  (exists g,
      init_chain [] now = [g] /\
      index g = 0 /\ timestamp g = now /\ filename g = "GENESIS"%string /\
      file_size g = 0 /\ ipfs_hash g = ""%string /\ nonce g = 0 /\
      previous_hash g = str_repeat "0" 64 /\
      hash g = calculate_hash g) /\
  indexed (init_chain [] now) /\
  linked (init_chain [] now) /\
  validate_chain (init_chain [] now) = true /\
  (forall fname, detect_tampering (init_chain [] now) fname = []) /\
  (forall b loaded, init_chain (b :: loaded) now = b :: loaded).
Proof.
  split; [eexists; split; [reflexivity|]; by repeat split|].
  split; [by intros [|[|i]] b [= <-]|].
  split; [by intros [|[|i]] b p|].
  split; [reflexivity|]. split; [|done].
  intros fname. apply consistent_no_tampering.
  intros b Hb. apply list_elem_of_singleton in Hb. by subst b.
Qed.

(** [add_block] keeps every block's stored hash equal to the hash of its
    fields, so that no file is reported as tampered after it. *)
Theorem add_block_consistent (chain chain' : list Block) (now fname : string)
    (fsize : Z) (chash ihash : string) (b : Block) :
  consistent chain ->
  add_block chain now fname fsize chash ihash = Ok (b, chain') ->
  consistent chain' /\ forall f, detect_tampering chain' f = [].
Proof.
  intros Hc Hadd.
  apply add_block_inv in Hadd as (prev & _ & -> & _ & _ & _ & _ & _ & _ & _ & Hh).
  assert (consistent (chain ++ [b])) by (by apply consistent_snoc).
  split; [done|]. intros f. by apply consistent_no_tampering.
Qed.

Lemma consistent_fresh_chain : consistent fresh_chain.
Proof.
  intros b Hb. apply list_elem_of_singleton in Hb. by subst b.
Qed.

Lemma add_block_consistent_witness :
  consistent fresh_chain /\
  add_block fresh_chain "2024-01-01T00:00:01.001111" "f" 3
    (sha256_hexdigest (str_encode "old"))
    "Qmcba06b5736faf67e54b07b561eae94395e774c51"
  = Ok (List.last (chain written_world) (mkBlock 0 "" "" 0 "" "" "" 0 ""),
        chain written_world) /\
  (consistent (chain written_world) /\
   forall f, detect_tampering (chain written_world) f = []).
Proof.
  split; [exact consistent_fresh_chain|].
  split; [vm_compute; reflexivity|].
  apply (add_block_consistent fresh_chain (chain written_world)
           "2024-01-01T00:00:01.001111" "f" 3
           (sha256_hexdigest (str_encode "old"))
           "Qmcba06b5736faf67e54b07b561eae94395e774c51"
           (List.last (chain written_world) (mkBlock 0 "" "" 0 "" "" "" 0 "")));
    [exact consistent_fresh_chain | vm_compute; reflexivity].
Defined.

(** *** Validity of the chain after [add_block] *)

Lemma validate_chain_snoc (chain : list Block) (b prev : Block) :
  last chain = Some prev ->
  validate_chain (chain ++ [b]) = true <->
  validate_chain chain = true /\ block_ok b prev.
Proof.
  intros Hlast. pose proof (last_lookup_pred _ _ Hlast) as Hprev.
  assert (length chain <> 0)%nat as Hne by (by destruct chain).
  rewrite !validate_chain_spec. split.
  - intros Hall. split.
    + intros i cur p Hc Hp. apply (Hall i).
      * rewrite lookup_app_l; [done | by eapply lookup_lt_Some].
      * rewrite lookup_app_l; [done | by eapply lookup_lt_Some].
    + apply (Hall (length chain - 1)%nat).
      * replace (S (length chain - 1)) with (length chain) by lia.
        by rewrite lookup_app_r, Nat.sub_diag by lia.
      * rewrite lookup_app_l by lia. done.
  - intros [Hall Hok] i cur p Hc Hp.
    destruct (decide (S i < length chain)%nat) as [Hlt|Hge].
    + rewrite lookup_app_l in Hc by done.
      rewrite lookup_app_l in Hp by lia. by apply (Hall i).
    + rewrite lookup_app_r in Hc by lia.
      destruct (S i - length chain)%nat as [|k] eqn:Hk; [|by destruct k].
      simpl in Hc. inversion Hc; subst cur.
      rewrite lookup_app_l in Hp by lia.
      replace i with (length chain - 1)%nat in Hp by lia.
      assert (p = prev) as -> by congruence. done.
Qed.

(** [add_block] on a chain that has a last block appends a block sealed
    with the nonce [proof_of_work] returned. The chain validates
    afterwards exactly when it validated before and some nonce below
    [MAX_NONCE] gives the new block a hash with the proof-of-work prefix:
    when the search is exhausted the block is appended all the same,
    with nonce 0, and the chain no longer validates. *)
Theorem add_block_validates (chain : list Block) (now fname : string)
    (fsize : Z) (chash ihash : string) (prev : Block) :
  last chain = Some prev ->
  exists b,
    add_block chain now fname fsize chash ihash = Ok (b, chain ++ [b]) /\
    nonce b = fst (proof_of_work
                     (mkBlock (len chain) now fname fsize chash ihash
                              (hash prev) 0 "")) /\
    (validate_chain (chain ++ [b]) = true <->
     validate_chain chain = true /\
     exists m, 0 <= m < MAX_NONCE /\
               qualifies (mkBlock (len chain) now fname fsize chash ihash
                                  (hash prev) 0 "") m).
Proof.
  intros Hlast.
  destruct (proof_of_work_least
              (mkBlock (len chain) now fname fsize chash ihash (hash prev) 0 ""))
    as (Hrange & Hfound & _).
  unfold add_block, get_latest_block. rewrite Hlast.
  destruct (proof_of_work _) as [found nb] eqn:Hpow.
  destruct (proof_of_work_block
              (mkBlock (len chain) now fname fsize chash ihash (hash prev) 0 ""))
    as [m Hm].
  rewrite Hpow in Hm. simpl in Hm, Hrange, Hfound. subst nb.
  eexists. split; [reflexivity|]. split; [reflexivity|].
  rewrite (validate_chain_snoc _ _ prev Hlast). unfold block_ok. simpl.
  split.
  - intros (Hvalid & _ & _ & Hq). split; [done|]. by exists found.
  - intros (Hvalid & Hex). split; [done|]. repeat split.
    by destruct (Hfound Hex).
Qed.

Lemma add_block_validates_witness :
  last fresh_chain = Some fresh_genesis /\
  exists b,
    add_block fresh_chain "2024-01-01T00:00:01.001111" "f" 3
      (sha256_hexdigest (str_encode "old"))
      "Qmcba06b5736faf67e54b07b561eae94395e774c51"
    = Ok (b, fresh_chain ++ [b]) /\
    nonce b = fst (proof_of_work
                     (mkBlock (len fresh_chain)
                        "2024-01-01T00:00:01.001111" "f" 3
                        (sha256_hexdigest (str_encode "old"))
                        "Qmcba06b5736faf67e54b07b561eae94395e774c51"
                        (hash fresh_genesis) 0 "")) /\
    (validate_chain (fresh_chain ++ [b]) = true <->
     validate_chain fresh_chain = true /\
     exists m, 0 <= m < MAX_NONCE /\
               qualifies (mkBlock (len fresh_chain)
                            "2024-01-01T00:00:01.001111" "f" 3
                            (sha256_hexdigest (str_encode "old"))
                            "Qmcba06b5736faf67e54b07b561eae94395e774c51"
                            (hash fresh_genesis) 0 "") m).
Proof.
  split; [vm_compute; reflexivity|].
  apply (add_block_validates fresh_chain "2024-01-01T00:00:01.001111" "f" 3
           (sha256_hexdigest (str_encode "old"))
           "Qmcba06b5736faf67e54b07b561eae94395e774c51" fresh_genesis).
  vm_compute; reflexivity.
Defined.

(** *** The file names of the chain *)

Lemma chain_filenames_elem (chain : list Block) (f : string) :
  f ∈ chain_filenames chain <->
  f <> "GENESIS"%string /\ get_file_blocks chain f <> [].
Proof.
  unfold chain_filenames. rewrite elem_of_list_to_set, list_elem_of_fmap.
  split.
  - intros (b & -> & Hb). apply list_elem_of_In, filter_In in Hb as [Hb Hne].
    split.
    + intros Heq. by rewrite Heq in Hne.
    + assert (b ∈ get_file_blocks chain (filename b)) as Hin.
      { apply get_file_blocks_elem. by rewrite list_elem_of_In. }
      intros Hnil. rewrite Hnil in Hin. by apply elem_of_nil in Hin.
  - intros [Hne Hblocks].
    destruct (get_file_blocks chain f) as [|b l] eqn:Hg; [done|].
    assert (b ∈ get_file_blocks chain f) as Hin by (rewrite Hg; left).
    apply get_file_blocks_elem in Hin as [Hin <-].
    exists b. split; [done|]. apply list_elem_of_In, filter_In.
    split; [by apply list_elem_of_In|].
    by destruct (String.eqb_spec (filename b) "GENESIS").
Qed.

(** [get_blockchain_info] counts every block, the genesis block
    included, and lists as files exactly the names other than
    ["GENESIS"] that have a block on the chain. *)
Theorem get_blockchain_info_files (chain : list Block) :
  total_blocks (get_blockchain_info chain) = len chain /\
  is_valid (get_blockchain_info chain) = validate_chain chain /\
  (latest_block_hash (get_blockchain_info chain) = None <-> chain = []) /\
  ("GENESIS"%string ∉ info_files (get_blockchain_info chain)) /\
  (forall f, f ∈ info_files (get_blockchain_info chain) <->
             f <> "GENESIS"%string /\ get_file_blocks chain f <> []).
Proof.
  split; [done|]. split; [done|]. split.
  - simpl. unfold get_latest_block. rewrite fmap_None. apply last_None.
  - split; [|apply chain_filenames_elem].
    simpl. rewrite chain_filenames_elem. tauto.
Qed.

(** *** The order in which [read] takes the blocks *)

Lemma insert_by_index_perm (b : Block) (l : list Block) :
  insert_by_index b l ≡ₚ b :: l.
Proof.
  induction l as [|y l IH]; simpl; [done|].
  destruct (index b <=? index y); [done|].
  rewrite IH. apply Permutation_swap.
Qed.

Lemma nondecreasing_cons (b : Block) (l : list Block) :
  nondecreasing l -> (forall x, x ∈ l -> index b <= index x) ->
  nondecreasing (b :: l).
Proof.
  intros Hl Hb [|i] [|j] b1 b2 Hij H1 H2; try lia; simpl in *.
  - inversion H1; subst b1. apply Hb. by eapply list_elem_of_lookup_2.
  - by apply (Hl i j); [lia | ..].
Qed.

Lemma nondecreasing_cons_inv (b : Block) (l : list Block) :
  nondecreasing (b :: l) ->
  nondecreasing l /\ forall x, x ∈ l -> index b <= index x.
Proof.
  intros Hbl. split.
  - intros i j b1 b2 Hij H1 H2. apply (Hbl (S i) (S j)); [lia | done..].
  - intros x [k Hk]%list_elem_of_lookup.
    apply (Hbl 0%nat (S k)); [lia | done..].
Qed.

Lemma insert_by_index_nondecreasing (b : Block) (l : list Block) :
  nondecreasing l -> nondecreasing (insert_by_index b l).
Proof.
  induction l as [|y l IH]; intros Hl; simpl.
  - by intros [|i] [|j] b1 b2 Hij H1 H2; try lia.
  - destruct (Z.leb_spec (index b) (index y)) as [Hle|Hgt].
    + apply nondecreasing_cons; [done|].
      apply nondecreasing_cons_inv in Hl as [_ Hy].
      intros x [->|Hx]%elem_of_cons; [done|].
      specialize (Hy x Hx). lia.
    + apply nondecreasing_cons_inv in Hl as [Hl Hy].
      apply nondecreasing_cons; [by apply IH|].
      intros x [->|Hx]%insert_by_index_elem; [lia | by apply Hy].
Qed.

(** The blocks of a file are read in an order of non-decreasing
    [index], whatever their order in the chain; sorting loses and adds
    no block, and leaves a list that is already in increasing order of
    [index] as it is. *)
Theorem sort_by_index_sorted (blocks : list Block) :
  nondecreasing (sort_by_index blocks) /\
  sort_by_index blocks ≡ₚ blocks /\
  (ascending blocks -> sort_by_index blocks = blocks).
Proof.
  split; [|split; [|apply sort_by_index_ascending]].
  - induction blocks as [|b l IH]; simpl.
    + by intros i j b1 b2 _ H1.
    + by apply insert_by_index_nondecreasing.
  - induction blocks as [|b l IH]; simpl; [done|].
    by rewrite insert_by_index_perm, IH.
Qed.
(** * Further properties of the filesystem operations *)

Section AdapterFacts.

Context {S : Type} `{ContentStore S}.

(** *** What [read] returns *)

Lemma read_loop_Ok_iff (store : S) (blocks : list Block) (acc d : bytes) :
  read_loop store blocks acc = Ok d <->
  exists chunks,
    Forall2 (fun b c => download_chunk store (ipfs_hash b) = Some c /\
                        chunk_hash b = sha256_hexdigest c) blocks chunks /\
    d = acc ++ concat chunks.
Proof.
  split.
  - revert acc. induction blocks as [|b blocks IH]; intros acc; simpl.
    + intros [= <-]. exists []. split; [constructor | by rewrite app_nil_r].
    + destruct (download_chunk store (ipfs_hash b)) as [c|] eqn:Hd; [|done].
      unfold verify_chunk.
      destruct (String.eqb_spec (sha256_hexdigest c) (chunk_hash b))
        as [Hh|]; [|done].
      simpl. intros (chunks & Hall & ->)%IH. exists (c :: chunks).
      split; [by constructor | by rewrite <- app_assoc].
  - intros (chunks & Hall & ->). by apply read_loop_chunks.
Qed.

Lemma downloads_unique (store : S) (blocks : list Block)
    (cs1 cs2 : list bytes) :
  Forall2 (fun b c => download_chunk store (ipfs_hash b) = Some c /\
                      chunk_hash b = sha256_hexdigest c) blocks cs1 ->
  Forall2 (fun b c => download_chunk store (ipfs_hash b) = Some c /\
                      chunk_hash b = sha256_hexdigest c) blocks cs2 ->
  cs1 = cs2.
Proof.
  intros H1. revert cs2.
  induction H1 as [|x c xs cs [Hc _] _ IH]; intros cs2 H2.
  - by inversion H2.
  - inversion H2 as [|x' c' xs' cs' [Hc' _] Hrest]; subst.
    f_equal; [congruence | by apply IH].
Qed.

(** [read] returns bytes exactly when the file has blocks, none of them
    is reported by [detect_tampering], and every one of them, taken by
    increasing index, downloads to bytes whose digest is its
    [chunk_hash]; the bytes returned are then the slice
    [[offset : offset + size]] of the chunks joined in that order. *)
Theorem read_Ok_iff (w : World S) (path : string) (size offset : Z)
    (d : bytes) :
  read w path size offset = Ok d <->
  get_file_blocks (chain w) (str_tail path) <> [] /\
  detect_tampering (chain w) (str_tail path) = [] /\
  exists chunks,
    Forall2 (fun b c => download_chunk (ipfs w) (ipfs_hash b) = Some c /\
                        chunk_hash b = sha256_hexdigest c)
            (sort_by_index (get_file_blocks (chain w) (str_tail path)))
            chunks /\
    d = slice (join_chunks chunks) offset (offset + size).
Proof.
  unfold read, read_body.
  destruct (get_file_blocks (chain w) (str_tail path)) as [|b l] eqn:Hb.
  { split; [done | by intros [? _]]. }
  destruct (detect_tampering (chain w) (str_tail path)) as [|z zs].
  2: { split; [done | by intros (_ & ? & _)]. }
  destruct (read_loop (ipfs w) (sort_by_index (b :: l)) []) as [full|e] eqn:Hr.
  - apply read_loop_Ok_iff in Hr as (chunks & Hall & ->). simpl. split.
    + intros [= <-]. split; [done|]. split; [done|]. by exists chunks.
    + intros (_ & _ & chunks' & Hall' & ->). do 2 f_equal.
      by rewrite (downloads_unique _ _ _ _ Hall' Hall).
  - split; [done|]. intros (_ & _ & chunks & Hall & _).
    assert (read_loop (ipfs w) (sort_by_index (b :: l)) [] = Ok ([] ++ concat chunks))
      as Hok by (by apply read_loop_chunks).
    congruence.
Qed.

Lemma slice_nonneg {A : Type} (l : list A) (i n : Z) :
  0 <= i -> 0 <= n ->
  slice l i (i + n) = take (Z.to_nat n) (drop (Z.to_nat i) l).
Proof.
  intros Hi Hn. unfold slice, slice_bound, len.
  destruct (Z.ltb_spec i 0); [lia|].
  destruct (Z.ltb_spec (i + n) 0); [lia|].
  destruct (Z.le_gt_cases (Z.of_nat (length l)) i).
  - rewrite !drop_ge by lia. by rewrite !take_nil.
  - rewrite (Z.min_l i) by lia.
    destruct (Z.le_gt_cases (i + n) (Z.of_nat (length l))).
    + rewrite Z.min_l by lia. f_equal. lia.
    + rewrite Z.min_r by lia.
      rewrite !take_ge; [done | rewrite length_drop; lia ..].
Qed.

(** A [read] with a non-negative size and offset that returns bytes
    returns a window of the whole file. The whole file is what the loop
    of [read] assembles from all the blocks of the file taken by
    increasing index, and what a read at offset 0 of any size that is at
    least its length returns. The window starts [offset] bytes into it
    and holds at most [size] bytes, fewer or none past the end of the
    file. *)
Theorem read_window (w : World S) (path : string) (size offset : Z)
    (d : bytes) :
  0 <= size -> 0 <= offset ->
  read w path size offset = Ok d ->
  exists full,
    read_loop (ipfs w)
      (sort_by_index (get_file_blocks (chain w) (str_tail path))) []
    = Ok full /\
    (forall n, len full <= n -> read w path n 0 = Ok full) /\
    d = take (Z.to_nat size) (drop (Z.to_nat offset) full) /\
    len d <= size /\
    (len full <= offset -> d = []).
Proof.
  intros Hs Ho (Hne & Htam & chunks & Hall & ->)%read_Ok_iff.
  exists (join_chunks chunks). split; [|split].
  - by rewrite (read_loop_chunks _ _ _ [] Hall).
  - intros n Hn. apply read_Ok_iff. split; [done|]. split; [done|].
    exists chunks. split; [done|].
    rewrite slice_nonneg by (unfold len in *; lia).
    rewrite drop_0, take_ge; [done | unfold len in *; lia].
  - rewrite slice_nonneg by done. split; [done|]. split.
    + unfold len. rewrite length_take. lia.
    + unfold len. intros Hpast. rewrite drop_ge by lia. by rewrite take_nil.
Qed.

(** [read] raises [FuseOSError(EIO)] as soon as one block of the file
    does not store the hash of its own fields, whatever the store holds. *)
Theorem read_tampered (w : World S) (path : string) (size offset : Z)
    (i : nat) (b : Block) :
  get_file_blocks (chain w) (str_tail path) !! i = Some b ->
  hash b <> calculate_hash b ->
  read w path size offset = Raise (FuseOSError EIO).
Proof.
  intros Hb Hne. destruct (read_result w path size offset) as [[d Hd]|]; [|done].
  apply read_Ok_iff in Hd as (_ & Htam & _).
  apply list_elem_of_lookup_2, get_file_blocks_elem in Hb as [Hin Hf].
  pose proof (proj1 (proj2 (detect_tampering_spec _ _)) Htam b Hin Hf).
  done.
Qed.

(** *** [verify_file] *)

Lemma verify_loop_bound (store : S) (blocks : list Block) (v : Z) :
  v <= verify_loop store blocks v <= v + len blocks.
Proof.
  revert v. induction blocks as [|b blocks IH]; intros v; simpl.
  - unfold len. simpl. lia.
  - unfold len in *. simpl length. rewrite Nat2Z.inj_succ.
    destruct (download_chunk store (ipfs_hash b)) as [c|].
    + destruct (verify_chunk c (chunk_hash b)).
      * specialize (IH (v + 1)). lia.
      * specialize (IH v). lia.
    + specialize (IH v). lia.
Qed.

Lemma verify_loop_all (store : S) (blocks : list Block) (v : Z) (acc : bytes) :
  verify_loop store blocks v = v + len blocks <->
  exists d, read_loop store blocks acc = Ok d.
Proof.
  revert v acc. induction blocks as [|b blocks IH]; intros v acc; simpl.
  - unfold len. simpl. split; [eauto | lia].
  - unfold len in *. simpl length. rewrite Nat2Z.inj_succ.
    destruct (download_chunk store (ipfs_hash b)) as [c|].
    + destruct (verify_chunk c (chunk_hash b)); simpl.
      * rewrite <- (IH (v + 1) (acc ++ c)).
        split; intros; lia.
      * pose proof (verify_loop_bound store blocks v). unfold len in *.
        split; [lia | by intros [? ?]].
    + pose proof (verify_loop_bound store blocks v). unfold len in *.
      split; [lia | by intros [? ?]].
Qed.

(** [verify_file] answers [True] for a file exactly when [read] returns
    bytes for it, at whatever size and offset. *)
Theorem verify_file_iff_read (w : World S) (path : string) (size offset : Z) :
  verify_file w (str_tail path) = true <->
  exists d, read w path size offset = Ok d.
Proof.
  unfold verify_file, read, read_body.
  destruct (get_file_blocks (chain w) (str_tail path)) as [|b l];
    [split; [done | by intros [? ?]]|].
  destruct (detect_tampering (chain w) (str_tail path));
    [|split; [done | by intros [? ?]]].
  rewrite Z.eqb_eq.
  rewrite (verify_loop_all (ipfs w) (sort_by_index (b :: l)) 0 []).
  destruct (read_loop _ _ _); split; intros [d Hd]; eauto; done.
Qed.

(** *** [write] *)

Lemma write_loop_extends (chunks : list bytes) (w w' : World S)
    (fname : string) (r : result unit) :
  write_loop w fname chunks = (r, w') ->
  files w' = files w /\
  exists new,
    chain w' = chain w ++ new /\
    (length new <= length chunks)%nat /\
    Forall (fun b => filename b = fname /\ hash b = calculate_hash b) new.
Proof.
  revert w. induction chunks as [|chunk rest IH]; intros w; simpl.
  - intros [= <- <-]. split; [done|]. exists [].
    by rewrite app_nil_r.
  - destruct (upload_chunk (ipfs w) chunk) as [[ihash|] store]; simpl.
    2: { intros [= <- <-]. split; [done|]. exists []. simpl.
         rewrite app_nil_r. split; [done|]. split; [lia | done]. }
    destruct (add_block _ _ _ _ _ _) as [[b c]|e] eqn:Hadd.
    2: { intros [= <- <-]. split; [done|]. exists []. simpl.
         rewrite app_nil_r. split; [done|]. split; [lia | done]. }
    apply add_block_inv in Hadd
      as (_ & _ & -> & _ & _ & Hf & _ & _ & _ & _ & Hh).
    intros (Hfiles & new & Hchain & Hlen & Hall)%IH. simpl in *.
    split; [done|]. exists (b :: new).
    split; [by rewrite Hchain, <- app_assoc|].
    split; [simpl; lia | by constructor].
Qed.

(** [write] only ever appends to the chain: whatever its arguments and
    whether it returns or raises, the chain it leaves is the chain it
    found followed by at most one new block per chunk, each named after
    the file and storing the hash of its own fields. *)
Theorem write_append_only (w : World S) (path : string) (data : bytes)
    (offset : Z) :
  exists new,
    chain (snd (write w path data offset)) = chain w ++ new /\
    (length new <= length (split_chunks data CHUNK_SIZE))%nat /\
    Forall (fun b => filename b = str_tail path /\ hash b = calculate_hash b)
           new.
Proof.
  unfold write, write_body.
  destruct (negb (offset =? 0)).
  { exists []. simpl. rewrite app_nil_r. split; [done|]. split; [lia | done]. }
  destruct (write_loop w (str_tail path) (split_chunks data CHUNK_SIZE))
    as [r w'] eqn:Hloop.
  apply write_loop_extends in Hloop as (_ & new & Hchain & Hlen & Hall).
  exists new. by destruct r.
Qed.

(** [write] at an offset other than 0 raises [FuseOSError(EIO)], the
    [ENOSYS] raised for it being caught by the [except] clause, and
    leaves the chain, the store and the file table as they were. *)
Theorem write_nonzero_offset (w : World S) (path : string) (data : bytes)
    (offset : Z) :
  offset <> 0 ->
  write_body w path data offset = (Raise (FuseOSError ENOSYS), w) /\
  write w path data offset = (Raise (FuseOSError EIO), w).
Proof.
  intros Hoff. unfold write, write_body.
  by destruct (Z.eqb_spec offset 0).
Qed.

Lemma py_sum_from (xs : list Z) (a : Z) : fold_left Z.add xs a = a + py_sum xs.
Proof.
  unfold py_sum. revert a. induction xs as [|x xs IH]; intros a;
    cbn [fold_left].
  - lia.
  - rewrite (IH (a + x)), (IH (0 + x)). lia.
Qed.

Lemma py_sum_cons (x : Z) (xs : list Z) : py_sum (x :: xs) = x + py_sum xs.
Proof. unfold py_sum at 1. simpl. apply py_sum_from. Qed.

Lemma len_concat (chunks : list bytes) :
  len (concat chunks) = py_sum (map len chunks).
Proof.
  induction chunks as [|c cs IH]; [done|].
  simpl. rewrite py_sum_cons, <- IH. unfold len. rewrite length_app. lia.
Qed.

Lemma block_of_chunk_sizes (fname : string) (new : list Block)
    (chunks : list bytes) :
  Forall2 (block_of_chunk fname) new chunks ->
  py_sum (map file_size new) = py_sum (map len chunks).
Proof.
  induction 1 as [|b c bs cs (_ & Hs & _) _ IH]; [done|].
  simpl. by rewrite !py_sum_cons, Hs, IH.
Qed.

(** On a chain that has a block, when no upload fails, [write] at offset
    0 returns [len(data)], appends one block per chunk in the order of
    the chunks, the sizes of which add up to [len(data)], and records
    [len(data)] as the size of the file. *)
Theorem write_success (w : World S) (path : string) (data : bytes) :
  chain w <> [] ->
  first_upload_failure (ipfs w) (split_chunks data CHUNK_SIZE) = None ->
  exists w' new,
    write w path data 0 = (Ok (len data), w') /\
    chain w' = chain w ++ new /\
    Forall2 (block_of_chunk (str_tail path)) new
            (split_chunks data CHUNK_SIZE) /\
    py_sum (map file_size new) = len data /\
    files w' = <[str_tail path := mkInfo (len data) 0 0 0]> (files w).
Proof.
  intros Hne Hup. unfold write, write_body. simpl.
  destruct (write_loop w (str_tail path) (split_chunks data CHUNK_SIZE))
    as [r w'] eqn:Hloop.
  apply write_loop_spec in Hloop
    as (new & Hchain & Hfiles & Hall & _ & Hr).
  2: { destruct (chain w) as [|x l]; [done|].
       rewrite last_cons. by destruct (last l). }
  destruct r as [u|e]; [|destruct Hr; congruence].
  destruct Hr as [Hlen _]. rewrite Hlen, firstn_all in Hall.
  eexists _, new. split; [reflexivity|]. simpl.
  split; [done|]. split; [done|]. split; [|by rewrite Hfiles].
  pose proof (join_split data CHUNK_SIZE ltac:(done)) as Hjoin.
  apply (f_equal len) in Hjoin. unfold join_chunks in Hjoin.
  rewrite len_concat in Hjoin. rewrite <- Hjoin.
  by apply block_of_chunk_sizes with (str_tail path).
Qed.

Lemma write_loop_validates (chunks : list bytes) (w w' : World S)
    (fname : string) (r : result unit) :
  validate_chain (chain w) = true ->
  write_loop w fname chunks = (r, w') ->
  (forall (i : nat) (b : Block),
      chain w' !! i = Some b -> (length (chain w) <= i)%nat ->
      startswith (hash b) (str_repeat "0" DIFFICULTY) = true) ->
  validate_chain (chain w') = true.
Proof.
  revert w. induction chunks as [|chunk rest IH]; intros w Hvalid; simpl.
  - by intros [= <- <-].
  - destruct (upload_chunk (ipfs w) chunk) as [[ihash|] store]; simpl.
    2: { by intros [= <- <-]. }
    destruct (add_block _ _ _ _ _ _) as [[b c]|e] eqn:Hadd.
    2: { by intros [= <- <-]. }
    apply add_block_inv in Hadd
      as (prev & Hlast & -> & _ & _ & _ & _ & _ & _ & Hp & Hh).
    intros Hloop Hpow.
    pose proof (write_loop_extends _ _ _ _ _ Hloop) as (_ & new & Hchain & _).
    simpl in Hchain.
    eapply IH; [|exact Hloop|]; simpl.
    + apply (validate_chain_snoc _ _ prev Hlast). split; [done|].
      repeat split; try done. apply (Hpow (length (chain w))); [|lia].
      rewrite Hchain, <- app_assoc. simpl.
      by rewrite lookup_app_r, Nat.sub_diag by lia.
    + intros i x Hx Hi. apply (Hpow i x Hx).
      rewrite length_app in Hi. simpl in Hi. lia.
Qed.

(** After [write], whether it returned or raised, a chain that
    validated before validates again as soon as the hash of every block
    the call appended carries the proof-of-work prefix: the links and
    the stored hashes of the new blocks are right by construction. *)
Theorem write_validates (w : World S) (path : string) (data : bytes)
    (offset : Z) :
  validate_chain (chain w) = true ->
  (forall (i : nat) (b : Block),
      chain (snd (write w path data offset)) !! i = Some b ->
      (length (chain w) <= i)%nat ->
      startswith (hash b) (str_repeat "0" DIFFICULTY) = true) ->
  validate_chain (chain (snd (write w path data offset))) = true.
Proof.
  unfold write, write_body.
  destruct (negb (offset =? 0)); [done|].
  destruct (write_loop w (str_tail path) (split_chunks data CHUNK_SIZE))
    as [r w'] eqn:Hloop.
  intros Hvalid Hpow.
  pose proof (write_loop_validates _ _ _ _ _ Hvalid Hloop) as Hw.
  destruct r; simpl in *; by apply Hw.
Qed.

(** *** [getattr], [create], [readdir] *)

(** [getattr] raises only [FuseOSError(ENOENT)], and exactly for a path
    other than ["/"] whose name is neither in the file table nor on the
    chain; nothing changes then. *)
Theorem getattr_ENOENT_iff (w : World S) (path : string) :
  (forall e, fst (getattr w path) = Raise e -> e = FuseOSError ENOENT) /\
  (fst (getattr w path) = Raise (FuseOSError ENOENT) <->
   path <> "/"%string /\ files w !! str_tail path = None /\
   get_file_blocks (chain w) (str_tail path) = []) /\
  (fst (getattr w path) = Raise (FuseOSError ENOENT) ->
   snd (getattr w path) = w).
Proof.
  unfold getattr.
  destruct (String.eqb_spec path "/") as [->|Hne]; simpl.
  { split; [done|]. split; [|done]. split; [done | by intros [? _]]. }
  destruct (files w !! str_tail path) as [info|]; simpl.
  { split; [done|]. split; [|done]. split; [done | by intros (_ & ? & _)]. }
  destruct (get_file_blocks (chain w) (str_tail path)) as [|b l]; simpl.
  - split; [by intros e [= <-]|]. split; [|done]. by split.
  - split; [done|]. split; [|done]. split; [done | by intros (_ & _ & ?)].
Qed.

(** After a [write] that returned, [getattr] reports the file as a
    regular file whose size is [len(data)], from the file table and
    without reading the chain. *)
Theorem getattr_after_write (w w' : World S) (path : string) (data : bytes)
    (n : Z) :
  path <> "/"%string ->
  write w path data 0 = (Ok n, w') ->
  getattr w' path =
  (Ok (Stat.mk (Z.lor DEFAULT_FILE_MODE S_IFREG) 1 (len data) 0 0 0), w').
Proof.
  intros Hne Hwrite. unfold write, write_body in Hwrite. simpl in Hwrite.
  destruct (write_loop w (str_tail path) (split_chunks data CHUNK_SIZE))
    as [[u|e] w1]; [|done].
  inversion Hwrite; subst n w'; clear Hwrite.
  unfold getattr. destruct (String.eqb_spec path "/"); [done|].
  simpl. by rewrite lookup_insert_eq.
Qed.

(** For a file that is on the chain and not in the file table,
    [getattr] reports the sum of the sizes recorded in its blocks,
    enters it in the file table, and answers the same when asked
    again. *)
Theorem getattr_from_chain (w : World S) (path : string) :
  path <> "/"%string ->
  files w !! str_tail path = None ->
  get_file_blocks (chain w) (str_tail path) <> [] ->
  exists st w',
    getattr w path = (Ok st, w') /\
    Stat.st_size st =
      py_sum (map file_size (get_file_blocks (chain w) (str_tail path))) /\
    Stat.st_mode st = Z.lor DEFAULT_FILE_MODE S_IFREG /\
    chain w' = chain w /\
    files w' = <[str_tail path := mkInfo (Stat.st_size st) 0 0 0]> (files w) /\
    getattr w' path = (Ok st, w').
Proof.
  intros Hne Hnone Hblocks. unfold getattr at 1.
  destruct (String.eqb_spec path "/"); [done|]. rewrite Hnone.
  destruct (get_file_blocks (chain w) (str_tail path)) as [|b l] eqn:Hb;
    [done|].
  eexists _, _. split; [reflexivity|]. simpl.
  repeat split. unfold getattr.
  destruct (String.eqb_spec path "/"); [done|]. simpl.
  by rewrite lookup_insert_eq.
Qed.

(** [create] enters the file with size 0, over whatever the file table
    held for it: [getattr] then reports size 0, also for a file that has
    blocks on the chain, which [create] does not touch. *)
Theorem create_getattr (w : World S) (path : string) (mode : Z) :
  path <> "/"%string ->
  fst (create w path mode) = 0 /\
  chain (snd (create w path mode)) = chain w /\
  getattr (snd (create w path mode)) path =
  (Ok (Stat.mk (Z.lor DEFAULT_FILE_MODE S_IFREG) 1 0 0 0 0),
   snd (create w path mode)).
Proof.
  intros Hne. split; [done|]. split; [done|].
  unfold getattr. destruct (String.eqb_spec path "/"); [done|].
  simpl. by rewrite lookup_insert_eq.
Qed.

(** [readdir] raises [FuseOSError(ENOENT)] for every path but ["/"];
    for ["/"] it lists ["."], [".."], every name of the file table, and
    every name other than ["GENESIS"] that has a block on the chain, and
    nothing else. *)
Theorem readdir_spec (w : World S) (path : string) :
  (path <> "/"%string -> readdir w path = Raise (FuseOSError ENOENT)) /\
  exists names,
    readdir w "/" = Ok names /\
    forall f, f ∈ names <->
              f = "."%string \/ f = ".."%string \/
              is_Some (files w !! f) \/
              (f <> "GENESIS"%string /\ get_file_blocks (chain w) f <> []).
Proof.
  split.
  - intros Hne. unfold readdir. by destruct (String.eqb_spec path "/").
  - eexists. split; [reflexivity|]. intros f. cbn [app].
    rewrite !elem_of_cons, elem_of_elements, elem_of_union, elem_of_dom,
      chain_filenames_elem. tauto.
Qed.

(** A file written once into a name that had no block, and looked up
    after the filesystem is mounted again (the file table being empty),
    has the size that was written: [getattr] finds [len(data)] as the
    sum of the sizes of its blocks. *)
Theorem getattr_remount_after_write (w w' : World S) (path : string)
    (data : bytes) (n : Z) :
  path <> "/"%string ->
  data <> [] ->
  get_file_blocks (chain w) (str_tail path) = [] ->
  write w path data 0 = (Ok n, w') ->
  exists w'',
    getattr (with_files w' ∅) path =
    (Ok (Stat.mk (Z.lor DEFAULT_FILE_MODE S_IFREG) 1 (len data) 0 0 0), w'').
Proof.
  intros Hne Hdata Hfresh Hwrite.
  unfold write, write_body in Hwrite. simpl in Hwrite.
  destruct (write_loop w (str_tail path) (split_chunks data CHUNK_SIZE))
    as [[u|e] w1] eqn:Hloop; [|done].
  inversion Hwrite; subst n w'; clear Hwrite.
  pose proof (join_split data CHUNK_SIZE ltac:(done)) as Hjoin.
  destruct (split_chunks data CHUNK_SIZE) as [|c0 cs] eqn:Hsplit.
  { simpl in Hjoin. congruence. }
  pose proof (write_loop_needs_chain _ _ _ _ _ _ Hloop) as Hlast.
  apply write_loop_spec in Hloop
    as (new & Hchain & _ & Hall & _ & Hlen & _); [|done].
  rewrite Hlen, firstn_all in Hall.
  assert (get_file_blocks (chain w1) (str_tail path) = new) as Hblocks.
  { rewrite Hchain, get_file_blocks_app, Hfresh. simpl.
    unfold get_file_blocks. apply forallb_filter_id, forallb_forall.
    intros b Hb%list_elem_of_In. apply String.eqb_eq.
    apply list_elem_of_lookup in Hb as [i Hb].
    destruct (Forall2_lookup_l _ _ _ _ _ Hall Hb) as (c & _ & Hbc).
    apply Hbc. }
  unfold getattr. destruct (String.eqb_spec path "/"); [done|].
  simpl. rewrite lookup_empty, Hblocks.
  destruct new as [|b0 bs] eqn:Hnew; [by inversion Hall|].
  rewrite <- Hnew in *. eexists. do 3 f_equal.
  rewrite (block_of_chunk_sizes _ _ _ Hall), <- len_concat.
  unfold join_chunks in Hjoin. by rewrite Hjoin.
Qed.

(** After a [write] that returned, the file is listed by [readdir]. *)
Theorem readdir_after_write (w w' : World S) (path : string) (data : bytes)
    (n : Z) :
  write w path data 0 = (Ok n, w') ->
  exists names, readdir w' "/" = Ok names /\ str_tail path ∈ names.
Proof.
  intros Hwrite. unfold write, write_body in Hwrite. simpl in Hwrite.
  destruct (write_loop w (str_tail path) (split_chunks data CHUNK_SIZE))
    as [[u|e] w1]; [|done].
  inversion Hwrite; subst n w'; clear Hwrite.
  destruct (readdir_spec (with_files w1
              (<[str_tail path := mkInfo (len data) 0 0 0]> (files w1))) "/")
    as (_ & names & Hnames & Hin).
  exists names. split; [done|]. apply Hin. right. right. left.
  simpl. by rewrite lookup_insert_eq.
Qed.

End AdapterFacts.

(** *** The simulated client *)

(** The simulated client never fails: an upload returns an address
    under which the chunk is then downloaded, and an address that holds
    nothing downloads as [b"simulated_chunk_data"]. *)
Theorem sim_store_roundtrip (storage : SimStore) (chunk_data : bytes) :
  (exists ihash,
      fst (upload_chunk storage chunk_data) = Some ihash /\
      download_chunk (snd (upload_chunk storage chunk_data)) ihash
      = Some chunk_data) /\
  (forall chunks, first_upload_failure storage chunks = None) /\
  (forall ihash,
      storage !! ihash = None ->
      download_chunk storage ihash = Some (str_encode "simulated_chunk_data")).
Proof.
  split; [|split].
  - eexists. split; [reflexivity|].
    cbn [upload_chunk download_chunk sim_store snd].
    unfold sim_download, sim_upload, SimStore. cbn [snd].
    by rewrite lookup_insert_eq.
  - intros chunks. revert storage.
    induction chunks as [|c cs IH]; intros storage; simpl; [done|].
    by rewrite IH.
  - intros ihash Hnone. cbn [download_chunk sim_store].
    unfold sim_download. by rewrite Hnone.
Qed.
(** *** The further properties on concrete filesystems *)

Lemma read_window_witness :
  0 <= 2 /\ 0 <= 1 /\
  read written_world "/f" 2 1 = Ok (str_encode "ld") /\
  exists full,
    read_loop (ipfs written_world)
      (sort_by_index (get_file_blocks (chain written_world) (str_tail "/f")))
      []
    = Ok full /\
    (forall n, len full <= n -> read written_world "/f" n 0 = Ok full) /\
    str_encode "ld" = take (Z.to_nat 2) (drop (Z.to_nat 1) full) /\
    len (str_encode "ld") <= 2 /\
    (len full <= 1 -> str_encode "ld" = []).
Proof.
  split; [lia|]. split; [lia|]. split; [vm_compute; reflexivity|].
  apply (read_window written_world "/f" 2 1 (str_encode "ld"));
    [lia | lia | vm_compute; reflexivity].
Defined.

Lemma read_tampered_witness :
  exists b,
    get_file_blocks (chain tampered_world) (str_tail "/f") !! 0%nat = Some b /\
    hash b <> calculate_hash b /\
    read tampered_world "/f" 3 0 = Raise (FuseOSError EIO).
Proof.
  eexists. split; [vm_compute; reflexivity|].
  split; [vm_compute; discriminate|].
  eapply (read_tampered tampered_world "/f" 3 0 0%nat);
    [vm_compute; reflexivity | vm_compute; discriminate].
Defined.

Lemma write_nonzero_offset_witness :
  5 <> 0 /\
  write_body fresh_world "/f" (str_encode "old") 5
  = (Raise (FuseOSError ENOSYS), fresh_world) /\
  write fresh_world "/f" (str_encode "old") 5
  = (Raise (FuseOSError EIO), fresh_world).
Proof.
  split; [lia|].
  apply (write_nonzero_offset fresh_world "/f" (str_encode "old") 5). lia.
Defined.

Lemma write_success_witness :
  chain fresh_world <> [] /\
  first_upload_failure (ipfs fresh_world)
    (split_chunks (str_encode "old") CHUNK_SIZE) = None /\
  exists w' new,
    write fresh_world "/f" (str_encode "old") 0
    = (Ok (len (str_encode "old")), w') /\
    chain w' = chain fresh_world ++ new /\
    Forall2 (block_of_chunk (str_tail "/f")) new
            (split_chunks (str_encode "old") CHUNK_SIZE) /\
    py_sum (map file_size new) = len (str_encode "old") /\
    files w' = <[str_tail "/f" := mkInfo (len (str_encode "old")) 0 0 0]>
                 (files fresh_world).
Proof.
  split; [vm_compute; discriminate|]. split; [vm_compute; reflexivity|].
  apply (write_success fresh_world "/f" (str_encode "old"));
    [vm_compute; discriminate | vm_compute; reflexivity].
Defined.

Lemma written_world_pow (i : nat) (b : Block) :
  chain (snd (write fresh_world "/f" (str_encode "old") 0)) !! i = Some b ->
  (length (chain fresh_world) <= i)%nat ->
  startswith (hash b) (str_repeat "0" DIFFICULTY) = true.
Proof.
  destruct i as [|[|i]].
  - vm_compute. lia.
  - vm_compute. by intros [= <-] _.
  - vm_compute. discriminate.
Qed.

Lemma write_validates_witness :
  validate_chain (chain fresh_world) = true /\
  (forall (i : nat) (b : Block),
      chain (snd (write fresh_world "/f" (str_encode "old") 0)) !! i = Some b ->
      (length (chain fresh_world) <= i)%nat ->
      startswith (hash b) (str_repeat "0" DIFFICULTY) = true) /\
  validate_chain (chain (snd (write fresh_world "/f" (str_encode "old") 0)))
  = true.
Proof.
  split; [vm_compute; reflexivity|]. split; [exact written_world_pow|].
  apply (write_validates fresh_world "/f" (str_encode "old") 0);
    [vm_compute; reflexivity | exact written_world_pow].
Defined.

Lemma getattr_after_write_witness :
  "/f"%string <> "/"%string /\
  write fresh_world "/f" (str_encode "old") 0 = (Ok 3, written_world) /\
  getattr written_world "/f" =
  (Ok (Stat.mk (Z.lor DEFAULT_FILE_MODE S_IFREG) 1 (len (str_encode "old"))
               0 0 0),
   written_world).
Proof.
  split; [discriminate|]. split; [vm_compute; reflexivity|].
  apply (getattr_after_write fresh_world written_world "/f"
           (str_encode "old") 3);
    [discriminate | vm_compute; reflexivity].
Defined.

Lemma getattr_from_chain_witness :
  "/f"%string <> "/"%string /\
  files remounted_world !! str_tail "/f" = None /\
  get_file_blocks (chain remounted_world) (str_tail "/f") <> [] /\
  exists st w',
    getattr remounted_world "/f" = (Ok st, w') /\
    Stat.st_size st =
      py_sum (map file_size
                  (get_file_blocks (chain remounted_world) (str_tail "/f"))) /\
    Stat.st_mode st = Z.lor DEFAULT_FILE_MODE S_IFREG /\
    chain w' = chain remounted_world /\
    files w' = <[str_tail "/f" := mkInfo (Stat.st_size st) 0 0 0]>
                 (files remounted_world) /\
    getattr w' "/f" = (Ok st, w').
Proof.
  split; [discriminate|]. split; [vm_compute; reflexivity|].
  split; [vm_compute; discriminate|].
  apply (getattr_from_chain remounted_world "/f");
    [discriminate | vm_compute; reflexivity | vm_compute; discriminate].
Defined.

Lemma create_getattr_witness :
  "/f"%string <> "/"%string /\
  fst (create written_world "/f" 420) = 0 /\
  chain (snd (create written_world "/f" 420)) = chain written_world /\
  getattr (snd (create written_world "/f" 420)) "/f" =
  (Ok (Stat.mk (Z.lor DEFAULT_FILE_MODE S_IFREG) 1 0 0 0 0),
   snd (create written_world "/f" 420)).
Proof.
  split; [discriminate|].
  apply (create_getattr written_world "/f" 420). discriminate.
Defined.

Lemma getattr_remount_after_write_witness :
  "/f"%string <> "/"%string /\
  str_encode "old" <> [] /\
  get_file_blocks (chain fresh_world) (str_tail "/f") = [] /\
  write fresh_world "/f" (str_encode "old") 0 = (Ok 3, written_world) /\
  exists w'',
    getattr (with_files written_world ∅) "/f" =
    (Ok (Stat.mk (Z.lor DEFAULT_FILE_MODE S_IFREG) 1 (len (str_encode "old"))
                 0 0 0), w'').
Proof.
  split; [discriminate|]. split; [vm_compute; discriminate|].
  split; [vm_compute; reflexivity|]. split; [vm_compute; reflexivity|].
  apply (getattr_remount_after_write fresh_world written_world "/f"
           (str_encode "old") 3);
    [discriminate | vm_compute; discriminate | vm_compute; reflexivity
     | vm_compute; reflexivity].
Defined.

Lemma readdir_after_write_witness :
  write fresh_world "/f" (str_encode "old") 0 = (Ok 3, written_world) /\
  exists names, readdir written_world "/" = Ok names /\
                str_tail "/f" ∈ names.
Proof.
  split; [vm_compute; reflexivity|].
  apply (readdir_after_write fresh_world written_world "/f"
           (str_encode "old") 3).
  vm_compute; reflexivity.
Defined.
